(** * zip-smith: a shallow embedding of the worker in [src/index.ts]

    The worker receives a list of (url, filename) pairs, validates it,
    derives a cache key from it, looks the key up in the Cache API and, on a
    miss, downloads every file, packs the downloads into one ZIP archive and
    stores the archive in the cache in the background.

    Strings.  A JavaScript string is a sequence of UTF-16 code units.  The
    development works with the strings whose code units are below 256
    (Latin-1), written as Rocq [string]s: one [ascii] is one code unit.  On
    these strings [toLowerCase], [startsWith], [endsWith], concatenation,
    [join] and [TextEncoder.encode] are modelled exactly.

    Requests.  A body is a document of the declared type [JarRequest], where
    the fields that the code tests for presence may be absent, or it is not
    JSON and [request.json()] rejects.  Two values outside the declared type
    are modelled as well, because the code throws on them: a body that is
    the JSON text [null], and a [null] among the entries of [files].

    Effects.  An async function is a function from the world to a result,
    returned or thrown, and the world after it.  The world holds what the
    remote origins answer, which calls to the Cache API fail, the cache,
    the clock, the ZIP writer under construction and the trace of what the
    program did.  Every thrown value is an [Error] with a message.  Tasks
    that run concurrently are run in the order in which they were started;
    a task handed to [waitUntil] is run to its end at that point, and its
    outcome is dropped.

    Runtime services.  [crypto.subtle.digest] with SHA-256 is implemented
    (FIPS 180-4) so that keys and ETags can be computed.  The collator behind
    [localeCompare], the URL parser behind [new URL] and the ZIP writer of
    zip.js are parameters of the model.

    The file has three parts: the model, the vocabulary of the statements,
    and the theorems. *)

From Stdlib Require Import ZArith NArith List String Ascii Bool Lia.
From Stdlib.Strings Require Import Byte.
From Stdlib Require Import Permutation DecimalString DecimalN DecimalPos.
From stdpp Require Import gmap strings.

Import ListNotations.
Local Open Scope string_scope.
Local Open Scope list_scope.
Local Open Scope Z_scope.

(* ===================================================================== *)
(** ** JavaScript string primitives                                       *)
(* ===================================================================== *)

Module JsString.

(** [s.length] *)
Definition length (s : string) : nat := String.length s.

(** Truthiness of a string: every string but the empty one is truthy. *)
Definition truthy (s : string) : bool :=
  match s with EmptyString => false | String _ _ => true end.

(** [s.startsWith(p)] *)
Fixpoint startsWith (s p : string) : bool :=
  match p, s with
  | EmptyString, _ => true
  | String _ _, EmptyString => false
  | String b p', String a s' => Ascii.eqb a b && startsWith s' p'
  end.

(** The characters of [s] from position [n] on: [s.substring(n)]. *)
Fixpoint drop (n : nat) (s : string) : string :=
  match n, s with
  | O, _ => s
  | S _, EmptyString => EmptyString
  | S n', String _ s' => drop n' s'
  end.

(** [s.endsWith(p)]: [p] is no longer than [s] and the last [p.length]
    code units of [s] are those of [p]. *)
Definition endsWith (s p : string) : bool :=
  (String.length p <=? String.length s)%nat
  && String.eqb (drop (String.length s - String.length p) s) p.

(** Lower case of one Latin-1 code unit: [A-Z] and the accented capitals
    U+00C0..U+00DE (but the multiplication sign U+00D7) move up by 32. *)
Definition lowerUnit (c : ascii) : ascii :=
  let n := N_of_ascii c in
  if ((65 <=? n) && (n <=? 90))%N then ascii_of_N (n + 32)
  else if ((192 <=? n) && (n <=? 222) && negb (n =? 215))%N
       then ascii_of_N (n + 32)
  else c.

(** [s.toLowerCase()] *)
Fixpoint toLowerCase (s : string) : string :=
  match s with
  | EmptyString => EmptyString
  | String c s' => String (lowerUnit c) (toLowerCase s')
  end.

(** [parts.join(sep)] *)
Fixpoint join (sep : string) (parts : list string) : string :=
  match parts with
  | [] => EmptyString
  | [p] => p
  | p :: rest => p +:+ sep +:+ join sep rest
  end.

(** [s.slice(0, n)] for [n >= 0]. *)
Fixpoint take (n : nat) (s : string) : string :=
  match n, s with
  | O, _ => EmptyString
  | S _, EmptyString => EmptyString
  | S n', String c s' => String c (take n' s')
  end.

(** [s.includes(p)] *)
Fixpoint includes (s p : string) : bool :=
  startsWith s p
  || match s with
     | EmptyString => false
     | String _ s' => includes s' p
     end.

(** Decimal rendering of a non-negative integer, [n.toString()]. *)
Definition ofNumber (n : Z) : string :=
  NilEmpty.string_of_uint (N.to_uint (Z.to_N n)).

End JsString.

(* ===================================================================== *)
(** ** Bytes, UTF-8 and hexadecimal                                       *)
(* ===================================================================== *)

(** An [ArrayBuffer] or [Uint8Array] is a list of bytes. *)
Definition bytes := list byte.

Definition byteOfZ (n : Z) : byte :=
  match Byte.of_N (Z.to_N (n mod 256)) with
  | Some b => b
  | None => x00
  end.

Definition zOfByte (b : byte) : Z := Z.of_N (Byte.to_N b).

(** [new TextEncoder().encode(s)]: a code unit below 128 is one byte, a code
    unit in 128..255 is the two-byte sequence 110000xx 10xxxxxx.  The
    strings of the model hold no other code units.  On strings with code
    units from 256 on the encoder is not one to one: it writes the three
    bytes of U+FFFD for every surrogate that stands alone. *)
Definition utf8Unit (c : ascii) : bytes :=
  let n := Z.of_N (N_of_ascii c) in
  if n <? 128 then [byteOfZ n]
  else [byteOfZ (192 + Z.shiftr n 6); byteOfZ (128 + Z.land n 63)].

Fixpoint textEncode (s : string) : bytes :=
  match s with
  | EmptyString => []
  | String c s' => utf8Unit c ++ textEncode s'
  end.

Definition hexDigit (n : Z) : ascii :=
  if n <? 10 then ascii_of_N (Z.to_N (48 + n))
  else ascii_of_N (Z.to_N (87 + n)).

(** [b.toString(16).padStart(2, '0')] *)
Definition hexByte (b : byte) : string :=
  let n := zOfByte b in
  String (hexDigit (n / 16)) (String (hexDigit (n mod 16)) EmptyString).

(** [Array.from(hashArray).map(b => ...).join('')] *)
Definition hexOfBytes (bs : bytes) : string :=
  JsString.join "" (map hexByte bs).

(* ===================================================================== *)
(** ** SHA-256 (FIPS 180-4), the digest of [crypto.subtle]                *)
(* ===================================================================== *)

Module Sha256.

Definition w32 : Z := 2 ^ 32.
Definition add32 (a b : Z) : Z := (a + b) mod w32.
Definition rotr (n x : Z) : Z :=
  Z.lor (Z.shiftr x n) (Z.shiftl x (32 - n) mod w32).
Definition shr (n x : Z) : Z := Z.shiftr x n.

Definition Ch (x y z : Z) : Z :=
  Z.lxor (Z.land x y) (Z.land (Z.lxor x (w32 - 1)) z).
Definition Maj (x y z : Z) : Z :=
  Z.lxor (Z.lxor (Z.land x y) (Z.land x z)) (Z.land y z).
Definition bigSigma0 (x : Z) : Z :=
  Z.lxor (Z.lxor (rotr 2 x) (rotr 13 x)) (rotr 22 x).
Definition bigSigma1 (x : Z) : Z :=
  Z.lxor (Z.lxor (rotr 6 x) (rotr 11 x)) (rotr 25 x).
Definition smallSigma0 (x : Z) : Z :=
  Z.lxor (Z.lxor (rotr 7 x) (rotr 18 x)) (shr 3 x).
Definition smallSigma1 (x : Z) : Z :=
  Z.lxor (Z.lxor (rotr 17 x) (rotr 19 x)) (shr 10 x).

(** The largest [r] below [2 ^ bits] with [r ^ k <= n]. *)
Fixpoint iroot (k : Z) (n : Z) (bits : nat) (r : Z) : Z :=
  match bits with
  | O => r
  | S b =>
      let r' := r + 2 ^ Z.of_nat b in
      iroot k n b (if r' ^ k <=? n then r' else r)
  end.

Definition isPrime (p : Z) : bool :=
  (1 <? p) && forallb (fun d => negb (p mod d =? 0))
                      (map Z.of_nat (seq 2 (Z.to_nat p - 2))).

Definition firstPrimes (n : nat) : list Z :=
  firstn n (List.filter isPrime (map Z.of_nat (seq 2 400))).

(** The first 32 bits of the fractional parts of the square roots of the
    first 8 primes, and of the cube roots of the first 64 primes. *)
Definition H0 : list Z :=
  Eval vm_compute in
    map (fun p => iroot 2 (p * 2 ^ 64) 40 0 mod w32) (firstPrimes 8).
Definition K : list Z :=
  Eval vm_compute in
    map (fun p => iroot 3 (p * 2 ^ 96) 40 0 mod w32) (firstPrimes 64).

(** Padding: a 1 bit, zeros up to 56 modulo 64 bytes, and the length of
    the message in bits as a 64-bit big-endian number. *)
Definition beBytes (width : nat) (n : Z) : list Z :=
  map (fun i => Z.shiftr n (8 * Z.of_nat i) mod 256) (rev (seq 0 width)).

Definition pad (msg : list Z) : list Z :=
  let len := Z.of_nat (List.length msg) in
  let zeros := Z.to_nat ((55 - len) mod 64) in
  msg ++ [128] ++ repeat 0 zeros ++ beBytes 8 (8 * len).

Fixpoint wordsOf (bs : list Z) : list Z :=
  match bs with
  | a :: b :: c :: d :: rest =>
      (((a * 256 + b) * 256 + c) * 256 + d) :: wordsOf rest
  | _ => []
  end.

Fixpoint chunks (n : nat) (fuel : nat) (ws : list Z) : list (list Z) :=
  match fuel, ws with
  | O, _ => []
  | _, [] => []
  | S fuel', _ => firstn n ws :: chunks n fuel' (skipn n ws)
  end.

(** The message schedule: the 16 words of the block, then 48 words each
    computed from the 16 before it. *)
Fixpoint extend (n : nat) (window : list Z) : list Z :=
  match n with
  | O => []
  | S n' =>
      let w := add32 (add32 (smallSigma1 (nth 14 window 0)) (nth 9 window 0))
                     (add32 (smallSigma0 (nth 1 window 0)) (nth 0 window 0)) in
      w :: extend n' (tl window ++ [w])
  end.

Definition schedule (block : list Z) : list Z := block ++ extend 48 block.

Record regs := Regs { ra : Z; rb : Z; rc : Z; rd : Z;
                      re : Z; rf : Z; rg : Z; rh : Z }.

Definition round (s : regs) (kw : Z * Z) : regs :=
  let t1 := add32 (add32 (add32 (rh s) (bigSigma1 (re s)))
                         (add32 (Ch (re s) (rf s) (rg s)) (fst kw)))
                  (snd kw) in
  let t2 := add32 (bigSigma0 (ra s)) (Maj (ra s) (rb s) (rc s)) in
  Regs (add32 t1 t2) (ra s) (rb s) (rc s) (add32 (rd s) t1) (re s) (rf s) (rg s).

Definition compress (h : regs) (block : list Z) : regs :=
  let s := fold_left round (combine K (schedule block)) h in
  Regs (add32 (ra h) (ra s)) (add32 (rb h) (rb s))
       (add32 (rc h) (rc s)) (add32 (rd h) (rd s))
       (add32 (re h) (re s)) (add32 (rf h) (rf s))
       (add32 (rg h) (rg s)) (add32 (rh h) (rh s)).

Definition initial : regs :=
  Regs (nth 0 H0 0) (nth 1 H0 0) (nth 2 H0 0) (nth 3 H0 0)
       (nth 4 H0 0) (nth 5 H0 0) (nth 6 H0 0) (nth 7 H0 0).

Definition digest (msg : bytes) : bytes :=
  let padded := pad (map zOfByte msg) in
  let blocks := chunks 16 (List.length padded) (wordsOf padded) in
  let h := fold_left compress blocks initial in
  map byteOfZ
      (concat (map (beBytes 4)
                   [ra h; rb h; rc h; rd h; re h; rf h; rg h; rh h])).

End Sha256.

(* ===================================================================== *)
(** ** Requests, responses and the world the worker runs in               *)
(* ===================================================================== *)

(** [interface JarRequest]: the code tests [body.files] for presence, for
    being an array and for being empty, and each entry's [url] and
    [filename] for presence, so these may be absent; [None] is [undefined]. *)
Record RawFile := mkRawFile {
  raw_url : option string;
  raw_filename : option string
}.

(** [body.files]: absent or falsy, a value that is not an array, an array
    of objects, or an array that holds a [null].  The loop reads the entries
    ahead of the first [null] and then the [null] itself, so an array with a
    [null] is given by the entries ahead of its first [null]. *)
Inductive FilesField :=
| FilesMissing
| FilesNotArray
| FilesArray (entries : list RawFile)
| FilesArrayWithNull (ahead : list RawFile).

Record JarRequest := mkJarRequest {
  files : FilesField;
  zipFilename : option string
}.

(** What [await request.json()] does: it rejects with a [SyntaxError] on a
    body that is not JSON, or resolves with the value of the JSON text:
    [null], or a document. *)
Inductive JsonOutcome :=
| JsonRejects (message : string)
| JsonNull
| JsonDocument (doc : JarRequest).

Record Request := mkRequest {
  method : string;
  json : JsonOutcome
}.

Inductive Body :=
| BodyNull
| BodyText (text : string)
| BodyData (data : bytes).

Record Response := mkResponse {
  status : Z;
  headers : list (string * string);
  body : Body
}.

(** Header names compare case-insensitively. *)
Fixpoint headersGet (name : string) (hs : list (string * string)) : option string :=
  match hs with
  | [] => None
  | (n, v) :: hs' =>
      if String.eqb (JsString.toLowerCase n) (JsString.toLowerCase name)
      then Some v else headersGet name hs'
  end.

(** [new Response(body, { status, headers })]: the status defaults to 200,
    and a text body without a content type is given the text one. *)
Definition newResponse (b : Body) (st : option Z) (hs : list (string * string))
  : Response :=
  let hs' :=
    match b, headersGet "Content-Type" hs with
    | BodyText _, None => hs ++ [("content-type", "text/plain;charset=UTF-8")]
    | _, _ => hs
    end in
  mkResponse (match st with Some s => s | None => 200 end) hs' b.

(** Every thrown value in this program is an [Error] object; its [message]
    is all the code reads of it. *)
Record JsError := mkError { message : string }.

(** The result of [fetch(url)]: the promise rejects (no connection), or a
    response arrives whose body can be read in full or breaks off. *)
Inductive Payload :=
| PayloadData (data : bytes)
| PayloadBroken (reason : string).

Inductive FetchOutcome :=
| FetchRejects (reason : string)
| FetchResponds (st : Z) (statusText : string) (payload : Payload).

(** The four calls the program makes to the Cache API. *)
Inductive CacheCall :=
| LookupOpen | LookupMatch | StoreOpen | StorePut.

(** A download, as [createZipFromFiles] hands it to [createZip]. *)
Record DownloadedFile := mkDownloaded {
  dl_filename : string;
  dl_data : bytes
}.

(** What the program does to the outside, in order. *)
Inductive Event :=
| EvFetch (url : string)
| EvZipAdd (filename : string)
| EvZipClose
| EvCache (call : CacheCall)
| EvLog (line : string)
| EvError (line : string).

Definition isFetch (e : Event) : bool :=
  match e with EvFetch _ => true | _ => false end.

Definition isZip (e : Event) : bool :=
  match e with EvZipAdd _ | EvZipClose => true | _ => false end.

Record World := mkWorld {
  (** the outcome of the [n]-th fetch of this world, by URL *)
  origin : nat -> string -> FetchOutcome;
  (** the calls to the Cache API that throw, with the error's message *)
  cacheFault : CacheCall -> option string;
  (** the cache ['jar-proxy:zips'], by request URL *)
  cacheStore : gmap string Response;
  (** [Date.now()] *)
  now : Z;
  (** the entries of the [ZipWriter] under construction, in file order *)
  zipWriter : list DownloadedFile;
  trace : list Event
}.

Definition fetchCount (w : World) : nat :=
  List.length (List.filter isFetch (trace w)).

Definition emit (e : Event) (w : World) : World :=
  mkWorld (origin w) (cacheFault w) (cacheStore w) (now w) (zipWriter w)
          (trace w ++ [e]).

(** The world after more events. *)
Definition emitAll (es : list Event) (w : World) : World :=
  mkWorld (origin w) (cacheFault w) (cacheStore w) (now w) (zipWriter w)
          (trace w ++ es).

Definition setStore (m : gmap string Response) (w : World) : World :=
  mkWorld (origin w) (cacheFault w) m (now w) (zipWriter w) (trace w).

Definition setZipWriter (z : list DownloadedFile) (w : World) : World :=
  mkWorld (origin w) (cacheFault w) (cacheStore w) (now w) z (trace w).

(* ===================================================================== *)
(** ** Async functions: a state and exception monad over the world        *)
(* ===================================================================== *)

Inductive Outcome (A : Type) :=
| Returned (a : A)
| Threw (e : JsError).
Arguments Returned {A} a.
Arguments Threw {A} e.

Definition Async (A : Type) : Type := World -> Outcome A * World.

Definition ret {A} (a : A) : Async A := fun w => (Returned a, w).

Definition throw {A} (e : JsError) : Async A := fun w => (Threw e, w).

Definition bind {A B} (m : Async A) (k : A -> Async B) : Async B :=
  fun w =>
    match m w with
    | (Returned a, w') => k a w'
    | (Threw e, w') => (Threw e, w')
    end.

(** [try { m } catch (error) { handler(error) }] *)
Definition tryCatch {A} (m : Async A) (handler : JsError -> Async A) : Async A :=
  fun w =>
    match m w with
    | (Returned a, w') => (Returned a, w')
    | (Threw e, w') => handler e w'
    end.

Definition readWorld {A} (f : World -> A) : Async A :=
  fun w => (Returned (f w), w).

Definition updateWorld (f : World -> World) : Async unit :=
  fun w => (Returned tt, f w).

Definition perform (e : Event) : Async unit := updateWorld (emit e).

#[export] Instance Async_ret : MRet Async := @ret.
#[export] Instance Async_bind : MBind Async := fun A B k m => bind m k.

(** [Promise.allSettled]: every task runs, in the order the tasks were
    started, and a rejection is recorded instead of propagated. *)
Inductive Settled (A : Type) :=
| Fulfilled (value : A)
| Rejected (reason : JsError).
Arguments Fulfilled {A} value.
Arguments Rejected {A} reason.

Definition settle {A} (m : Async A) : Async (Settled A) :=
  fun w =>
    match m w with
    | (Returned a, w') => (Returned (Fulfilled a), w')
    | (Threw e, w') => (Returned (Rejected e), w')
    end.

Fixpoint allSettled {A} (tasks : list (Async A)) : Async (list (Settled A)) :=
  match tasks with
  | [] => ret []
  | t :: ts =>
      r ← settle t;
      rs ← allSettled ts;
      ret (r :: rs)
  end.

(** [Promise.all]: every task has been started when it is called, so all of
    them run; the result is the list of values, or the first rejection. *)
Fixpoint firstRejection {A} (rs : list (Settled A)) : JsError + list A :=
  match rs with
  | [] => inr []
  | Rejected e :: _ => inl e
  | Fulfilled a :: rs' =>
      match firstRejection rs' with
      | inl e => inl e
      | inr vs => inr (a :: vs)
      end
  end.

Definition promiseAll {A} (tasks : list (Async A)) : Async (list A) :=
  rs ← allSettled tasks;
  match firstRejection rs with
  | inl e => throw e
  | inr vs => ret vs
  end.

(** [ctx.waitUntil(promise)]: the task runs detached from the handler;
    whatever it returns or throws never reaches the caller. *)
Definition waitUntil {A} (task : Async A) : Async unit :=
  fun w => let (_, w') := task w in (Returned tt, w').

(* ===================================================================== *)
(** ** Runtime services                                                   *)
(* ===================================================================== *)

(** [array.sort(compare)]: the sort is stable, so with a consistent
    comparator its result is the one of any stable sort.  Elements are
    inserted from the last to the first, each in front of the first element
    it does not compare greater than. *)
Fixpoint sortInsert {A} (compare : A -> A -> Z) (x : A) (l : list A) : list A :=
  match l with
  | [] => [x]
  | y :: l' => if compare x y <=? 0 then x :: l else y :: sortInsert compare x l'
  end.

Definition arraySort {A} (compare : A -> A -> Z) (l : list A) : list A :=
  fold_right (sortInsert compare) [] l.

(** [parseInt(s)]: leading white space, a sign, an optional [0x], then the
    digits of the radix up to the first other character; [None] is [NaN]. *)
Definition digitValue (c : ascii) : option Z :=
  let n := Z.of_N (N_of_ascii c) in
  if (48 <=? n) && (n <=? 57) then Some (n - 48)
  else if (97 <=? n) && (n <=? 122) then Some (n - 87)
  else if (65 <=? n) && (n <=? 90) then Some (n - 55)
  else None.

Fixpoint parseDigits (radix : Z) (s : string) (acc : option Z) : option Z :=
  match s with
  | EmptyString => acc
  | String c s' =>
      match digitValue c with
      | Some d =>
          if d <? radix
          then parseDigits radix s'
                 (Some (match acc with Some a => a * radix + d | None => d end))
          else acc
      | None => acc
      end
  end.

Definition isWhiteSpace (c : ascii) : bool :=
  let n := N_of_ascii c in
  ((9 <=? n) && (n <=? 13) || (n =? 32) || (n =? 160))%N.

Fixpoint skipWhiteSpace (s : string) : string :=
  match s with
  | String c s' => if isWhiteSpace c then skipWhiteSpace s' else s
  | EmptyString => s
  end.

Definition parseInt (s : string) : option Z :=
  let s1 := skipWhiteSpace s in
  let '(sign, s2) :=
    match s1 with
    | String "-" r => (-1, r)
    | String "+" r => (1, r)
    | _ => (1, s1)
    end in
  let '(radix, s3) :=
    match s2 with
    | String "0" (String "x" r) | String "0" (String "X" r) => (16, r)
    | _ => (10, s2)
    end in
  option_map (Z.mul sign) (parseDigits radix s3 None).

(** [await fetch(url, ...)] *)
Definition globalFetch (url : string) : Async (Z * string * Payload) :=
  fun w =>
    let w' := emit (EvFetch url) w in
    match origin w (fetchCount w) url with
    | FetchRejects reason => (Threw (mkError reason), w')
    | FetchResponds st statusText payload => (Returned (st, statusText, payload), w')
    end.

(** [response.ok] *)
Definition responseOk (st : Z) : bool := (200 <=? st) && (st <=? 299).

(** [await response.arrayBuffer()] on a fetched response *)
Definition payloadArrayBuffer (p : Payload) : Async bytes :=
  match p with
  | PayloadData d => ret d
  | PayloadBroken reason => throw (mkError reason)
  end.

(** [await response.arrayBuffer()] on a stored response *)
Definition bodyArrayBuffer (b : Body) : bytes :=
  match b with
  | BodyNull => []
  | BodyText t => textEncode t
  | BodyData d => d
  end.

(** One call to the Cache API: it is recorded, and throws when the world
    says so. *)
Definition cacheCall (call : CacheCall) : Async unit :=
  fun w =>
    match cacheFault w call with
    | Some reason => (Threw (mkError reason), emit (EvCache call) w)
    | None => (Returned tt, emit (EvCache call) w)
    end.

(** [await cache.match(request)] *)
Definition cacheMatch (requestUrl : string) : Async (option Response) :=
  cacheCall LookupMatch;;
  readWorld (fun w => cacheStore w !! requestUrl).

(** [await cache.put(request, response)] *)
Definition cachePut (requestUrl : string) (response : Response) : Async unit :=
  cacheCall StorePut;;
  updateWorld (fun w => setStore (<[requestUrl := response]> (cacheStore w)) w).

(** [console.log] and [console.error] *)
Definition consoleLog (line : string) : Async unit := perform (EvLog line).
Definition consoleError (line : string) : Async unit := perform (EvError line).

(** The [TypeError] that V8 throws when a property of [null] is read. *)
Definition nullRead (property : string) : JsError :=
  mkError ("Cannot read properties of null (reading '" +:+ property +:+ "')").

(** The read [x.property] of a value that may be [null]: it throws on
    [null], and goes on with the object otherwise. *)
Definition nonNull {A} (property : string) (x : option A) : Async A :=
  match x with
  | Some object => ret object
  | None => throw (nullRead property)
  end.

(* ===================================================================== *)
(** ** The worker                                                         *)
(* ===================================================================== *)

(** An entry of [validFiles]. *)
Record ValidFile := mkValidFile {
  url : string;
  filename : string
}.

(** [interface CachedZipData]; a [timestamp] of [None] is [NaN]. *)
Record CachedZipData := mkCached {
  cached_data : bytes;
  cached_etag : string;
  cached_timestamp : option Z
}.

Definition allowOrigin : string * string := ("Access-Control-Allow-Origin", "*").

Definition allowedPrefixes : list string :=
  [ "https://github.com/EssentialsX/Essentials/";
    "https://ci.ender.zone/job/EssentialsX/" ].

(** [allowedPrefixes.some(prefix => file.url.startsWith(prefix))] *)
Definition isAllowedSource (u : string) : bool :=
  existsb (fun prefix => JsString.startsWith u prefix) allowedPrefixes.

(** The 400 responses of [handlePostRequest]. *)
Definition badRequest (reason : string) : Response :=
  newResponse (BodyText reason) (Some 400) [allowOrigin].

(** Lines 107-110: the filename with [.jar] at its end. *)
Definition jarFilename (name : string) : string :=
  if JsString.endsWith (JsString.toLowerCase name) ".jar"
  then name
  else name +:+ ".jar".

(** [x || fallback] on an optional string. *)
Definition orElse (x : option string) (fallback : string) : string :=
  match x with
  | Some s => if JsString.truthy s then s else fallback
  | None => fallback
  end.

Definition present (x : option string) : bool :=
  match x with
  | Some s => JsString.truthy s
  | None => false
  end.

(** [generateCacheKey] *)
Definition generateCacheKey (urls : list string) : string :=
  let data := textEncode (JsString.join "|" urls) in
  let hashArray := Sha256.digest data in
  hexOfBytes hashArray.

(** [generateETag] *)
Definition generateETag (data : bytes) : string :=
  let hashArray := Sha256.digest data in
  JsString.take 16 (hexOfBytes hashArray).

(** The one-character string holding a double quote. *)
Definition doubleQuote : string := String (ascii_of_N 34) EmptyString.

(** [createZipResponse] *)
Definition createZipResponse (data : bytes) (etag : string)
    (name : option string) : Response :=
  let zipFilename := orElse name "jars.zip" in
  newResponse (BodyData data) None
    [ ("Content-Type", "application/zip");
      ("Content-Disposition",
       "attachment; filename=" +:+ doubleQuote +:+ zipFilename +:+ doubleQuote);
      ("ETag", etag);
      ("Cache-Control", "public, max-age=31536000, immutable");
      allowOrigin ].

Definition cacheRequestUrl (cacheKey : string) : string :=
  "https://jar-proxy.cache/zip/" +:+ cacheKey.

(** [getCachedZip] *)
Definition getCachedZip (cacheKey : string) : Async (option CachedZipData) :=
  tryCatch
    (cacheCall LookupOpen;;
     let cacheRequest := cacheRequestUrl cacheKey in
     response ← cacheMatch cacheRequest;
     match response with
     | Some r =>
         let data := bodyArrayBuffer (body r) in
         let etag := orElse (headersGet "etag" (headers r)) "" in
         let timestamp := parseInt (orElse (headersGet "x-timestamp" (headers r)) "0") in
         ret (Some (mkCached data etag timestamp))
     | None => ret None
     end)
    (fun error =>
       consoleError ("Error getting cached zip: " +:+ message error);;
       ret None).

(** [cacheZip] *)
Definition cacheZip (cacheKey : string) (data : bytes) (etag : string)
  : Async unit :=
  tryCatch
    (cacheCall StoreOpen;;
     let cacheRequest := cacheRequestUrl cacheKey in
     timestamp ← readWorld now;
     let response :=
       newResponse (BodyData data) None
         [ ("Content-Type", "application/zip");
           ("etag", etag);
           ("x-timestamp", JsString.ofNumber timestamp);
           ("Cache-Control", "public, max-age=31536000, immutable") ] in
     cachePut cacheRequest response;;
     consoleLog ("Cached ZIP with key: " +:+ cacheKey))
    (fun error =>
       consoleError ("Error caching zip: " +:+ message error)).

(** The callback of [files.map] in [createZipFromFiles]: one download. *)
Definition download (file : ValidFile) : Async DownloadedFile :=
  response ← globalFetch (url file);
  let '(st, statusText, payload) := response in
  if negb (responseOk st)
  then throw (mkError ("Failed to download " +:+ url file +:+ ": "
                       +:+ JsString.ofNumber st +:+ " " +:+ statusText))
  else
    data ← payloadArrayBuffer payload;
    ret (mkDownloaded (filename file) data).

Definition isRejected {A} (r : Settled A) : bool :=
  match r with Rejected _ => true | Fulfilled _ => false end.

Definition isFulfilled {A} (r : Settled A) : bool :=
  match r with Fulfilled _ => true | Rejected _ => false end.

(** [(f as PromiseRejectedResult).reason.message]; the cast is only made on
    rejected results. *)
Definition reasonMessage {A} (r : Settled A) : string :=
  match r with Rejected e => message e | Fulfilled _ => "" end.

(** [(result as PromiseFulfilledResult<...>).value] over a list of
    fulfilled results. *)
Fixpoint fulfilledValues {A} (rs : list (Settled A)) : list A :=
  match rs with
  | [] => []
  | Fulfilled v :: rs' => v :: fulfilledValues rs'
  | Rejected _ :: rs' => fulfilledValues rs'
  end.

Section Worker.

(** [a.localeCompare(b)]: negative, zero or positive. *)
Variable localeCompare : string -> string -> Z.

(** [new URL(s).protocol], or [None] when the constructor throws. *)
Variable urlProtocol : string -> option string.

(** zip.js: whether [zipWriter.add] rejects an entry, given the entries
    the writer holds, with the error's message; and the bytes of the
    archive that [zipWriter.close()] produces from its entries. *)
Variable zipAddRejects : list DownloadedFile -> DownloadedFile -> option string.
Variable zipEncode : list DownloadedFile -> bytes.

(** [zipWriter.add(file.filename, new Blob([file.data]).stream())] *)
Definition zipWriterAdd (file : DownloadedFile) : Async unit :=
  perform (EvZipAdd (dl_filename file));;
  entries ← readWorld zipWriter;
  match zipAddRejects entries file with
  | Some reason => throw (mkError reason)
  | None => updateWorld (setZipWriter (entries ++ [file]))
  end.

(** [createZip] *)
Definition createZip (downloaded : list DownloadedFile) : Async bytes :=
  updateWorld (setZipWriter []);;
  promiseAll (map zipWriterAdd downloaded);;
  perform EvZipClose;;
  entries ← readWorld zipWriter;
  ret (zipEncode entries).

(** [createZipFromFiles] *)
Definition createZipFromFiles (validFiles : list ValidFile) : Async bytes :=
  downloads ← allSettled (map download validFiles);
  let failed := List.filter isRejected downloads in
  if (0 <? List.length failed)%nat
  then
    let errors := JsString.join ", " (map reasonMessage failed) in
    throw (mkError ("Failed to download some files: " +:+ errors))
  else
    let downloadedFiles := fulfilledValues (List.filter isFulfilled downloads) in
    createZip downloadedFiles.

(** The body of the loop of lines 62-113, on one entry: the response it
    returns, or the entry it pushes. *)
Definition validateFile (file : RawFile) : Response + ValidFile :=
  if negb (present (raw_url file)) || negb (present (raw_filename file))
  then inl (badRequest "Each file must have both url and filename properties")
  else
    let u := orElse (raw_url file) "" in
    let name := orElse (raw_filename file) "" in
    match urlProtocol u with
    | None => inl (badRequest ("Invalid URL format: " +:+ u))
    | Some protocol =>
        if negb (String.eqb protocol "http:") && negb (String.eqb protocol "https:")
        then inl (badRequest ("Invalid URL protocol: " +:+ u))
        else if negb (isAllowedSource u)
        then inl (badRequest
               ("URL must start with one of the allowed EssentialsX sources: "
                +:+ JsString.join ", " allowedPrefixes +:+ ". Got: " +:+ u))
        else inr (mkValidFile u (jarFilename name))
    end.

(** The loop: [validFiles] is the array built so far. *)
Fixpoint validateLoop (pending : list RawFile) (validFiles : list ValidFile)
  : Response + list ValidFile :=
  match pending with
  | [] => inr validFiles
  | file :: rest =>
      match validateFile file with
      | inl response => inl response
      | inr valid => validateLoop rest (validFiles ++ [valid])
      end
  end.

(** Lines 124-126: the key of a validated list. *)
Definition requestCacheKey (validFiles : list ValidFile) : string :=
  let sortedFiles :=
    arraySort (fun a b => localeCompare (url a) (url b)) validFiles in
  generateCacheKey (map (fun f => url f +:+ "|" +:+ filename f) sortedFiles).

(** [await request.json()]; [None] is [null]. *)
Definition requestJson (request : Request) : Async (option JarRequest) :=
  match json request with
  | JsonRejects reason => throw (mkError reason)
  | JsonNull => ret None
  | JsonDocument doc => ret (Some doc)
  end.

(** [handlePostRequest]; the read of [body.files] at line 51 throws on a
    body that is [null], and the read of [file.url] at line 63 on an entry
    that is [null]. *)
Definition handlePostRequest (request : Request) : Async Response :=
  parsed ← requestJson request;
  body ← nonNull "files" parsed;
  match files body with
  | FilesMissing | FilesNotArray | FilesArray [] =>
      ret (badRequest "Invalid request: files array is required")
  | FilesArrayWithNull ahead =>
      match validateLoop ahead [] with
      | inl response => ret response
      | inr _ => throw (nullRead "url")
      end
  | FilesArray entries =>
      match validateLoop entries [] with
      | inl response => ret response
      | inr validFiles =>
          if (List.length validFiles =? 0)%nat
          then ret (badRequest "No valid files provided")
          else
            let cacheKey := requestCacheKey validFiles in
            cached ← getCachedZip cacheKey;
            match cached with
            | Some c =>
                consoleLog ("Returning cached ZIP for key: " +:+ cacheKey);;
                ret (createZipResponse (cached_data c) (cached_etag c)
                                       (zipFilename body))
            | None =>
                consoleLog "Creating new ZIP for files:";;
                zipData ← createZipFromFiles validFiles;
                let etag := generateETag zipData in
                waitUntil (cacheZip cacheKey zipData etag);;
                ret (createZipResponse zipData etag (zipFilename body))
            end
      end
  end.

(** The worker's [fetch] handler. *)
Definition fetch (request : Request) : Async Response :=
  if String.eqb (method request) "OPTIONS"
  then
    ret (newResponse BodyNull None
           [ allowOrigin;
             ("Access-Control-Allow-Methods", "GET, POST, OPTIONS");
             ("Access-Control-Allow-Headers", "Content-Type") ])
  else
    tryCatch
      (if String.eqb (method request) "POST"
       then handlePostRequest request
       else ret (newResponse (BodyText "Method not allowed") (Some 405) []))
      (fun error =>
         consoleError ("Worker error: " +:+ message error);;
         ret (newResponse
                (BodyText ("Internal Server Error: " +:+ message error))
                (Some 500) [allowOrigin])).

End Worker.

(* ===================================================================== *)
(** ** Sample services, for running the model on concrete requests        *)
(* ===================================================================== *)

Module Sample.

(** A collator that orders strings by their code units. *)
Fixpoint codeUnitCompare (a b : string) : Z :=
  match a, b with
  | EmptyString, EmptyString => 0
  | EmptyString, String _ _ => -1
  | String _ _, EmptyString => 1
  | String x a', String y b' =>
      let d := Z.of_N (N_of_ascii x) - Z.of_N (N_of_ascii y) in
      if d =? 0 then codeUnitCompare a' b' else d
  end.

(** A URL parser that knows three schemes and accepts every URL of them
    that names a host. *)
Definition schemeProtocol (s : string) : option string :=
  if JsString.startsWith s "https://" && (8 <? String.length s)%nat then Some "https:"
  else if JsString.startsWith s "http://" && (7 <? String.length s)%nat then Some "http:"
  else if JsString.startsWith s "ftp://" && (6 <? String.length s)%nat then Some "ftp:"
  else None.

(** A ZIP writer that refuses a name it already holds. *)
Definition rejectDuplicate (entries : list DownloadedFile) (file : DownloadedFile)
  : option string :=
  if existsb (fun e => String.eqb (dl_filename e) (dl_filename file)) entries
  then Some "File already exists"
  else None.

(** An archive format: each entry as its name, a zero byte, the length of
    its data in one byte, and its data. *)
Definition storeEntries (entries : list DownloadedFile) : bytes :=
  concat (map (fun e => textEncode (dl_filename e) ++ [x00]
                        ++ [byteOfZ (Z.of_nat (List.length (dl_data e)))]
                        ++ dl_data e) entries).

(** A world with an empty cache and an empty trace. *)
Definition world (o : nat -> string -> FetchOutcome)
    (faults : CacheCall -> option string) : World :=
  mkWorld o faults ∅ 1700000000000 [] [].

Definition noFault : CacheCall -> option string := fun _ => None.

(** An origin that serves the same three bytes for every URL. *)
Definition serveAll : nat -> string -> FetchOutcome :=
  fun _ _ => FetchResponds 200 "OK" (PayloadData [x50; x4b; x03]).

Definition worker : Request -> Async Response :=
  fetch codeUnitCompare schemeProtocol rejectDuplicate storeEntries.

Definition post (entries : list RawFile) : Request :=
  mkRequest "POST" (JsonDocument (mkJarRequest (FilesArray entries) None)).

Definition entry (u name : string) : RawFile := mkRawFile (Some u) (Some name).

Definition essentials : string :=
  "https://github.com/EssentialsX/Essentials/releases/download/x/a.jar".

End Sample.

Module Cases.

Import Sample.

Definition addons : string :=
  "https://ci.ender.zone/job/EssentialsX/lastSuccessfulBuild/artifact/b.jar".

Definition elsewhere : string := "https://example.com/downloads/c.jar".

(** Two entries with the same url and different filenames. *)
Definition sameUrl : list RawFile := [entry essentials "a"; entry essentials "b"].

(** An origin that cannot be reached. *)
Definition unreachable : nat -> string -> FetchOutcome :=
  fun _ _ => FetchRejects "Network connection lost.".

End Cases.

(* ===================================================================== *)
(** ** The vocabulary of the statements                                  *)
(* ===================================================================== *)

(** The entry has a url that starts with no allowed prefix, or no url. *)
Definition outsideAllowList (file : RawFile) : bool :=
  match raw_url file with
  | Some u => negb (isAllowedSource u)
  | None => true
  end.

(** What one download settles to, given what the origin does. *)
Definition downloadResult (o : FetchOutcome) (file : ValidFile)
  : Settled DownloadedFile :=
  match o with
  | FetchRejects reason => Rejected (mkError reason)
  | FetchResponds st statusText payload =>
      if responseOk st
      then match payload with
           | PayloadData d => Fulfilled (mkDownloaded (filename file) d)
           | PayloadBroken reason => Rejected (mkError reason)
           end
      else Rejected (mkError ("Failed to download " +:+ url file +:+ ": "
                              +:+ JsString.ofNumber st +:+ " " +:+ statusText))
  end.

(** What the downloads of a list settle to, when [n] fetches were made
    before the first of them. *)
Fixpoint settledDownloads (o : nat -> string -> FetchOutcome) (n : nat)
    (validFiles : list ValidFile) : list (Settled DownloadedFile) :=
  match validFiles with
  | [] => []
  | file :: rest =>
      downloadResult (o n (url file)) file :: settledDownloads o (S n) rest
  end.

(** The writer accepts every entry of [entries], added in order to a writer
    that holds [held]. *)
Fixpoint acceptsAll
    (zipAddRejects : list DownloadedFile -> DownloadedFile -> option string)
    (held entries : list DownloadedFile) : bool :=
  match entries with
  | [] => true
  | file :: rest =>
      match zipAddRejects held file with
      | None => acceptsAll zipAddRejects (held ++ [file]) rest
      | Some _ => false
      end
  end.

(** The [CachedZipData] read off a stored response. *)
Definition cachedOf (r : Response) : CachedZipData :=
  mkCached (bodyArrayBuffer (body r))
           (orElse (headersGet "etag" (headers r)) "")
           (parseInt (orElse (headersGet "x-timestamp" (headers r)) "0")).

(** A call of the lookup throws. *)
Definition lookupFails (w : World) : bool :=
  match cacheFault w LookupOpen, cacheFault w LookupMatch with
  | None, None => false
  | _, _ => true
  end.

(** What [getCachedZip] returns. *)
Definition lookupResult (cacheKey : string) (w : World) : option CachedZipData :=
  if lookupFails w then None
  else option_map cachedOf (cacheStore w !! cacheRequestUrl cacheKey).

(** No event of the list is a fetch. *)
Definition quiet (es : list Event) : bool :=
  forallb (fun e => negb (isFetch e)) es.

(** The responses of [fetch] itself: to OPTIONS, to a method that is
    neither OPTIONS nor POST, and to an error that reaches its catch. *)
Definition preflight : Response :=
  newResponse BodyNull None
    [ allowOrigin;
      ("Access-Control-Allow-Methods", "GET, POST, OPTIONS");
      ("Access-Control-Allow-Headers", "Content-Type") ].

Definition methodNotAllowed : Response :=
  newResponse (BodyText "Method not allowed") (Some 405) [].

Definition internalServerError (error : JsError) : Response :=
  newResponse (BodyText ("Internal Server Error: " +:+ message error))
              (Some 500) [allowOrigin].

(** What [handlePostRequest] returns for a validated list: the cached
    archive, or the one [createZipFromFiles] makes. *)
Definition bundleResult (localeCompare : string -> string -> Z)
    (zipAddRejects : list DownloadedFile -> DownloadedFile -> option string)
    (zipEncode : list DownloadedFile -> bytes)
    (validFiles : list ValidFile) (name : option string) (w : World)
  : Outcome Response :=
  match lookupResult (requestCacheKey localeCompare validFiles) w with
  | Some c => Returned (createZipResponse (cached_data c) (cached_etag c) name)
  | None =>
      match fst (createZipFromFiles zipAddRejects zipEncode validFiles w) with
      | Returned zipData =>
          Returned (createZipResponse zipData (generateETag zipData) name)
      | Threw e => Threw e
      end
  end.

(** The world with other faults at the two calls of the store. *)
Definition withStoreFaults (atOpen atPut : option string) (w : World) : World :=
  mkWorld (origin w)
          (fun call =>
             match call with
             | StoreOpen => atOpen
             | StorePut => atPut
             | LookupOpen | LookupMatch => cacheFault w call
             end)
          (cacheStore w) (now w) (zipWriter w) (trace w).

(** The world with a cache that works and holds nothing. *)
Definition withEmptyCache (w : World) : World :=
  mkWorld (origin w) (fun _ => None) ∅ (now w) (zipWriter w) (trace w).

(** The filename an entry of the request asks for, normalised. *)
Definition requestedName (file : RawFile) : string :=
  jarFilename (orElse (raw_filename file) "").

(** In the spec's words: the filename ends with the suffix under a
    case-insensitive comparison.  Its last four code units are a dot and
    the letters j, a and r, each in either case. *)
Definition endsWithJarAnyCase (name : string) : Prop :=
  exists stem d j a r,
    name = stem +:+ String d (String j (String a (String r EmptyString)))
    /\ d = "."%char
    /\ (j = "j"%char \/ j = "J"%char)
    /\ (a = "a"%char \/ a = "A"%char)
    /\ (r = "r"%char \/ r = "R"%char).

(** A consistent comparator, as ECMAScript asks of [localeCompare] and of
    the argument of [sort]: it orders its arguments totally, and strings
    that differ may compare equal. *)
Record ConsistentComparator {A} (compare : A -> A -> Z) : Prop := {
  compare_refl : forall a, compare a a = 0;
  compare_antisym : forall a b, compare a b < 0 <-> 0 < compare b a;
  compare_trans : forall a b c,
    compare a b <= 0 -> compare b c <= 0 -> compare a c <= 0
}.

(** A list in ascending order: each element is below all later ones. *)
Inductive Ascending {A} (compare : A -> A -> Z) : list A -> Prop :=
| Ascending_nil : Ascending compare []
| Ascending_cons x l :
    Forall (fun y => compare x y <= 0) l -> Ascending compare l ->
    Ascending compare (x :: l).

(** The response carries the permissive cross-origin header. *)
Definition allowsAnyOrigin (response : Response) : Prop :=
  headersGet "Access-Control-Allow-Origin" (headers response) = Some "*".

(** The string has no vertical bar in it. *)
Fixpoint barFree (s : string) : bool :=
  match s with
  | EmptyString => true
  | String c s' => negb (Ascii.eqb c "|") && barFree s'
  end.

(** The urls and filenames of a list, in order. *)
Definition fields (validFiles : list ValidFile) : list string :=
  flat_map (fun f => [url f; filename f]) validFiles.

(** The bytes that [generateCacheKey] hashes for a validated list. *)
Definition keyMaterial (localeCompare : string -> string -> Z)
    (validFiles : list ValidFile) : bytes :=
  textEncode
    (JsString.join "|"
       (map (fun f => url f +:+ "|" +:+ filename f)
            (arraySort (fun a b => localeCompare (url a) (url b)) validFiles))).

(** One code unit read back from the front of its UTF-8 bytes. *)
Definition decodeUnit (bs : bytes) : option (ascii * bytes) :=
  match bs with
  | [] => None
  | b :: rest =>
      let n := zOfByte b in
      if n <? 128 then Some (ascii_of_N (Z.to_N n), rest)
      else match rest with
           | [] => None
           | b2 :: rest' =>
               Some (ascii_of_N (Z.to_N ((n - 192) * 64 + (zOfByte b2 - 128))), rest')
           end
  end.

(** No url and no filename of the list holds a vertical bar. *)
Definition barFreeFiles (validFiles : list ValidFile) : bool :=
  forallb (fun f => barFree (url f) && barFree (filename f)) validFiles.

(** A field of an entry that is absent or the empty string, and one that
    holds a string that is not empty. *)
Definition lacks (x : option string) : Prop :=
  x = None \/ x = Some EmptyString.

Definition holds (x : option string) (s : string) : Prop :=
  x = Some s /\ s <> EmptyString.

(** The entries that pass the checks of lines 63-105, with the entry that
    the loop pushes for them: both fields are there, the url parses, its
    protocol is http or https, and it starts with an allowed prefix. *)
Definition acceptedAs (urlProtocol : string -> option string)
    (file : RawFile) (v : ValidFile) : Prop :=
  exists u name,
    holds (raw_url file) u
    /\ holds (raw_filename file) name
    /\ (urlProtocol u = Some "http:" \/ urlProtocol u = Some "https:")
    /\ isAllowedSource u = true
    /\ v = mkValidFile u (jarFilename name).

(** The entries that fail one of these checks, with the reason of the 400
    for the first check they fail. *)
Inductive Refused (urlProtocol : string -> option string) (file : RawFile)
  : string -> Prop :=
| RefusedIncomplete :
    lacks (raw_url file) \/ lacks (raw_filename file) ->
    Refused urlProtocol file "Each file must have both url and filename properties"
| RefusedFormat u name :
    holds (raw_url file) u ->
    holds (raw_filename file) name ->
    urlProtocol u = None ->
    Refused urlProtocol file ("Invalid URL format: " +:+ u)
| RefusedProtocol u name protocol :
    holds (raw_url file) u ->
    holds (raw_filename file) name ->
    urlProtocol u = Some protocol ->
    protocol <> "http:" ->
    protocol <> "https:" ->
    Refused urlProtocol file ("Invalid URL protocol: " +:+ u)
| RefusedSource u name :
    holds (raw_url file) u ->
    holds (raw_filename file) name ->
    urlProtocol u = Some "http:" \/ urlProtocol u = Some "https:" ->
    isAllowedSource u = false ->
    Refused urlProtocol file
      ("URL must start with one of the allowed EssentialsX sources: "
       +:+ "https://github.com/EssentialsX/Essentials/, "
       +:+ "https://ci.ender.zone/job/EssentialsX/. Got: " +:+ u).

(* ===================================================================== *)
(** ** The vocabulary of the runs of the handler                        *)
(* ===================================================================== *)

(** The response that [cacheZip] stores. *)
Definition storedResponse (data : bytes) (etag : string) (timestamp : Z) : Response :=
  newResponse (BodyData data) None
    [ ("Content-Type", "application/zip");
      ("etag", etag);
      ("x-timestamp", JsString.ofNumber timestamp);
      ("Cache-Control", "public, max-age=31536000, immutable") ].

(** A call of the store throws. *)
Definition storeFails (w : World) : bool :=
  match cacheFault w StoreOpen, cacheFault w StorePut with
  | None, None => false
  | _, _ => true
  end.

(** The urls of the fetches among the events, in order. *)
Fixpoint fetchedUrls (es : list Event) : list string :=
  match es with
  | [] => []
  | EvFetch u :: es' => u :: fetchedUrls es'
  | _ :: es' => fetchedUrls es'
  end.

(** [w'] is [w] after more events, among which the fetches of [urls], and
    with the cache [store]; the origins, the faults and the clock are
    those of [w]. *)
Definition advancesTo (urls : list string) (store : gmap string Response)
    (w w' : World) : Prop :=
  origin w' = origin w
  /\ cacheFault w' = cacheFault w
  /\ now w' = now w
  /\ cacheStore w' = store
  /\ exists es, trace w' = trace w ++ es /\ fetchedUrls es = urls.

(** The same, with the cache of [w]. *)
Definition advances (urls : list string) (w w' : World) : Prop :=
  advancesTo urls (cacheStore w) w w'.

(** The validated list of a request that gets as far as the cache: a POST
    whose body is a document with a non-empty [files] array that passes the
    validation loop. *)
Definition validatedFiles (urlProtocol : string -> option string)
    (request : Request) : option (list ValidFile) :=
  if String.eqb (method request) "POST"
  then match json request with
       | JsonDocument doc =>
           match files doc with
           | FilesArray (e :: es) =>
               match validateLoop urlProtocol (e :: es) [] with
               | inr validFiles => Some validFiles
               | inl _ => None
               end
           | _ => None
           end
       | JsonRejects _ | JsonNull => None
       end
  else None.

(** [body.zipFilename] of a request whose body is a document. *)
Definition requestedZipName (request : Request) : option string :=
  match json request with
  | JsonDocument doc => zipFilename doc
  | JsonRejects _ | JsonNull => None
  end.

(** Every stored response carries, as its [etag] header, the ETag of its
    own body. *)
Definition cacheCoherent (w : World) : Prop :=
  forall requestUrl r,
    cacheStore w !! requestUrl = Some r ->
    headersGet "etag" (headers r) = Some (generateETag (bodyArrayBuffer (body r))).

(** A digit or a letter from a to f. *)
Definition isLowerHex (c : ascii) : bool :=
  let n := N_of_ascii c in
  ((48 <=? n) && (n <=? 57) || (97 <=? n) && (n <=? 102))%N.

Fixpoint allLowerHex (s : string) : bool :=
  match s with
  | EmptyString => true
  | String c s' => isLowerHex c && allLowerHex s'
  end.


(** Worlds and requests for running the handler. *)
Module Runs.

Import Sample.

(** The request for one file. *)
Definition oneFile : Request := post [entry essentials "a"].


(** A world where all is well. *)
Definition fine : World := world serveAll noFault.

(** A world where no origin can be reached. *)
Definition offline : World := world Cases.unreachable noFault.



End Runs.

(* ===================================================================== *)
(** ** The model on test vectors                                         *)
(* ===================================================================== *)

Example sha256_abc :
  hexOfBytes (Sha256.digest (textEncode "abc"))
  = "ba7816bf8f01cfea414140de5dae2223b00361a396177a9cb410ff61f20015ad".
Proof. vm_compute. reflexivity. Qed.

Example sha256_empty :
  hexOfBytes (Sha256.digest [])
  = "e3b0c44298fc1c149afbf4c8996fb92427ae41e4649b934ca495991b7852b855".
Proof. vm_compute. reflexivity. Qed.

Example sha256_two_blocks :
  hexOfBytes (Sha256.digest (repeat x61 200))
  = "c2a908d98f5df987ade41b5fce213067efbcc21ef2240212a41e54b5e7c28ae5".
Proof. vm_compute. reflexivity. Qed.

Example sha256_latin1 :
  hexOfBytes (Sha256.digest (textEncode (String (ascii_of_N 233) "|")))
  = "47ef3917dff29af9ef7cb1462d5fa9748fcac3a994e61a2111005cea2d843e34".
Proof. vm_compute. reflexivity. Qed.

Example sample_bundle :
  fst (Sample.worker (Sample.post [Sample.entry Sample.essentials "a"])
         (Sample.world Sample.serveAll Sample.noFault))
  = Returned
      (mkResponse 200
         [ ("Content-Type", "application/zip");
           ("Content-Disposition",
            "attachment; filename=" +:+ doubleQuote +:+ "jars.zip" +:+ doubleQuote);
           ("ETag", "feee08e7c878a78c");
           ("Cache-Control", "public, max-age=31536000, immutable");
           allowOrigin ]
         (BodyData (textEncode "a.jar" ++ [x00; x03; x50; x4b; x03]))).
Proof. vm_compute. reflexivity. Qed.

Example ofNumber_status : JsString.ofNumber 404 = "404" /\ JsString.ofNumber 0 = "0".
Proof. split; reflexivity. Qed.

(* ===================================================================== *)
(** ** Reasoning about async functions                                    *)
(* ===================================================================== *)

Ltac unfold_async :=
  unfold mbind, mret, Async_bind, Async_ret, bind, ret, throw, tryCatch,
    consoleLog, consoleError, perform, updateWorld, readWorld, waitUntil,
    settle in *.

(** Two worlds built from the same one by the same events are equal. *)
Ltac world_eq :=
  repeat (unfold emitAll, emit, setZipWriter, setStore; simpl);
  rewrite <- ?app_assoc; simpl; reflexivity.

Lemma bind_returned {A B} (m : Async A) (k : A -> Async B) w a w' :
  m w = (Returned a, w') -> (x ← m; k x) w = k a w'.
Proof.
  intros Hm. unfold mbind, Async_bind, bind. rewrite Hm. reflexivity.
Qed.

Lemma bind_threw {A B} (m : Async A) (k : A -> Async B) w e w' :
  m w = (Threw e, w') -> (x ← m; k x) w = (Threw e, w').
Proof.
  intros Hm. unfold mbind, Async_bind, bind. rewrite Hm. reflexivity.
Qed.

(* ===================================================================== *)
(** ** Validation                                                         *)
(* ===================================================================== *)

Section Validation.

Variable urlProtocol : string -> option string.

Lemma badRequest_status reason : status (badRequest reason) = 400.
Proof. reflexivity. Qed.

Lemma validateFile_inl file r :
  validateFile urlProtocol file = inl r -> exists reason, r = badRequest reason.
Proof.
  unfold validateFile. intros H.
  repeat match type of H with
         | (if ?c then _ else _) = _ => destruct c
         | match ?x with _ => _ end = _ => destruct x
         end;
    inversion H; eauto.
Qed.

Lemma validateFile_inr file v :
  validateFile urlProtocol file = inr v ->
  exists u name,
    raw_url file = Some u /\ raw_filename file = Some name
    /\ JsString.truthy u = true /\ JsString.truthy name = true
    /\ isAllowedSource u = true
    /\ v = mkValidFile u (jarFilename name).
Proof.
  unfold validateFile, present, orElse. intros H.
  destruct (raw_url file) as [u|]; [|discriminate].
  destruct (raw_filename file) as [name|];
    [|destruct (JsString.truthy u); discriminate].
  destruct (JsString.truthy u) eqn:Hu; [|discriminate].
  destruct (JsString.truthy name) eqn:Hn; [|discriminate].
  simpl in H.
  destruct (urlProtocol u) as [protocol|]; [|discriminate].
  destruct (negb (String.eqb protocol "http:") && negb (String.eqb protocol "https:"));
    [discriminate|].
  destruct (isAllowedSource u) eqn:Ha; [|discriminate].
  simpl in H. inversion H. exists u, name. auto 10.
Qed.

(** The loop returns a 400, or pushes one entry per iteration. *)
Lemma validateLoop_inl pending : forall acc r,
  validateLoop urlProtocol pending acc = inl r ->
  exists reason, r = badRequest reason.
Proof.
  induction pending as [|file rest IH]; intros acc r H; simpl in H.
  - discriminate.
  - destruct (validateFile urlProtocol file) as [r'|v] eqn:Hf.
    + inversion H; subst. eapply validateFile_inl; eauto.
    + eapply IH; eauto.
Qed.

Lemma validateLoop_inr pending : forall acc vs,
  validateLoop urlProtocol pending acc = inr vs ->
  exists pushed,
    vs = acc ++ pushed
    /\ Forall2 (fun file v => validateFile urlProtocol file = inr v) pending pushed.
Proof.
  induction pending as [|file rest IH]; intros acc vs H; simpl in H.
  - inversion H; subst. exists []. rewrite app_nil_r. split; constructor.
  - destruct (validateFile urlProtocol file) as [r'|v] eqn:Hf; [discriminate|].
    apply IH in H as (pushed & -> & Hall).
    exists (v :: pushed). rewrite <- app_assoc. split; [reflexivity|].
    constructor; assumption.
Qed.

Lemma validateLoop_length pending vs :
  validateLoop urlProtocol pending [] = inr vs ->
  List.length vs = List.length pending.
Proof.
  intros H. apply validateLoop_inr in H as (pushed & -> & Hall).
  simpl. symmetry. eapply Forall2_length; eauto.
Qed.

Lemma validateLoop_outside pending acc :
  existsb outsideAllowList pending = true ->
  exists reason, validateLoop urlProtocol pending acc = inl (badRequest reason).
Proof.
  intros Hex.
  destruct (validateLoop urlProtocol pending acc) as [r|vs] eqn:Hv.
  - apply validateLoop_inl in Hv as [reason ->]. eauto.
  - exfalso. apply validateLoop_inr in Hv as (pushed & _ & Hall).
    apply existsb_exists in Hex as (file & Hin & Hout).
    revert Hin. induction Hall as [|f v fs vs' Hf _ IH]; intros Hin.
    + destruct Hin.
    + destruct Hin as [->|Hin]; [|auto].
      apply validateFile_inr in Hf as (u & name & Hu & _ & _ & _ & Ha & _).
      unfold outsideAllowList in Hout. rewrite Hu, Ha in Hout. discriminate.
Qed.

Lemma truthy_nonempty s : JsString.truthy s = true <-> s <> EmptyString.
Proof. destruct s; simpl; split; congruence. Qed.

Lemma present_holds x : present x = true <-> exists s, holds x s.
Proof.
  unfold present, holds. destruct x as [s|].
  - rewrite truthy_nonempty. split; [eauto|].
    intros (s' & Heq & Hne). congruence.
  - split; [discriminate|]. intros (s' & Heq & _). discriminate.
Qed.

Lemma present_lacks x : present x = false <-> lacks x.
Proof.
  unfold present, lacks. destruct x as [[|c s]|]; simpl; split; auto;
    try discriminate; intros [H|H]; congruence.
Qed.

Lemma holds_present x s : holds x s -> present x = true /\ orElse x EmptyString = s.
Proof.
  intros [-> Hne]. unfold present, orElse.
  apply truthy_nonempty in Hne. rewrite Hne. auto.
Qed.

(** The loop body pushes an entry exactly for the entries that pass the
    checks. *)
Lemma validateFile_acceptedAs file v :
  validateFile urlProtocol file = inr v <-> acceptedAs urlProtocol file v.
Proof.
  unfold acceptedAs. split.
  - intros H. pose proof H as H'.
    apply validateFile_inr in H' as (u & name & Hu & Hn & Htu & Htn & Ha & ->).
    exists u, name. unfold holds. rewrite <- !truthy_nonempty.
    repeat split; auto.
    unfold validateFile, present, orElse in H. rewrite Hu, Hn, Htu, Htn in H.
    simpl in H. destruct (urlProtocol u) as [protocol|]; [|discriminate].
    destruct (String.eqb_spec protocol "http:") as [Heq|]; [subst; auto|].
    destruct (String.eqb_spec protocol "https:") as [Heq|]; [subst; auto|].
    discriminate.
  - intros (u & name & Hu & Hn & Hp & Ha & ->).
    apply holds_present in Hu as [Hpu Hou], Hn as [Hpn Hon].
    unfold validateFile. rewrite Hpu, Hpn, Hou, Hon, Ha. simpl.
    destruct Hp as [-> | ->]; reflexivity.
Qed.

(** It returns a 400 exactly for the entries that fail one, with the
    reason of the first check that fails. *)
Lemma validateFile_refused file response :
  validateFile urlProtocol file = inl response
  <-> exists reason, Refused urlProtocol file reason /\ response = badRequest reason.
Proof.
  split.
  - unfold validateFile. intros H.
    destruct (present (raw_url file)) eqn:Hpu; simpl in H;
      [|injection H as <-; eexists; split; [|reflexivity];
        apply RefusedIncomplete; left; apply present_lacks; exact Hpu].
    destruct (present (raw_filename file)) eqn:Hpn; simpl in H;
      [|injection H as <-; eexists; split; [|reflexivity];
        apply RefusedIncomplete; right; apply present_lacks; exact Hpn].
    apply present_holds in Hpu as [u Hu], Hpn as [name Hn].
    destruct (holds_present _ _ Hu) as [_ Hou].
    rewrite Hou in H. simpl in H.
    destruct (urlProtocol u) as [protocol|] eqn:Hp;
      [|injection H as <-; eexists; split; [|reflexivity];
        eapply RefusedFormat; eauto].
    destruct (String.eqb_spec protocol "http:") as [->|Hhttp].
    + simpl in H. destruct (isAllowedSource u) eqn:Ha; [discriminate|].
      injection H as <-. eexists. split; [eapply RefusedSource; eauto|].
      reflexivity.
    + destruct (String.eqb_spec protocol "https:") as [->|Hhttps].
      * simpl in H. destruct (isAllowedSource u) eqn:Ha; [discriminate|].
        injection H as <-. eexists. split; [eapply RefusedSource; eauto|].
        reflexivity.
      * injection H as <-. eexists. split; [|reflexivity].
        eapply RefusedProtocol; eauto.
  - intros (reason & Href & ->). unfold validateFile.
    destruct Href as [Hl|u name Hu Hn Hp|u name protocol Hu Hn Hp Hhttp Hhttps
                      |u name Hu Hn Hp Ha].
    + destruct Hl as [Hl|Hl]; apply present_lacks in Hl; rewrite Hl;
        [reflexivity|]. rewrite orb_true_r. reflexivity.
    + apply holds_present in Hu as [Hpu Hou], Hn as [Hpn Hon].
      rewrite Hpu, Hpn, Hou, Hp. reflexivity.
    + apply holds_present in Hu as [Hpu Hou], Hn as [Hpn Hon].
      rewrite Hpu, Hpn, Hou, Hp. simpl.
      apply String.eqb_neq in Hhttp, Hhttps. rewrite Hhttp, Hhttps. reflexivity.
    + apply holds_present in Hu as [Hpu Hou], Hn as [Hpn Hon].
      rewrite Hpu, Hpn, Hou, Ha. simpl.
      destruct Hp as [-> | ->]; reflexivity.
Qed.

(** The loop on a list of entries that pass, and on one whose first entry
    that does not pass comes after entries that do. *)
Lemma validateLoop_accepted pending : forall acc pushed,
  Forall2 (acceptedAs urlProtocol) pending pushed ->
  validateLoop urlProtocol pending acc = inr (acc ++ pushed).
Proof.
  induction pending as [|file rest IH]; intros acc pushed H.
  - inversion H; subst. rewrite app_nil_r. reflexivity.
  - inversion H as [|? v ? vs Hf Hrest]; subst. simpl.
    apply validateFile_acceptedAs in Hf. rewrite Hf.
    rewrite (IH _ _ Hrest), <- app_assoc. reflexivity.
Qed.

Lemma validateLoop_refused accepted : forall acc pushed file rest reason,
  Forall2 (acceptedAs urlProtocol) accepted pushed ->
  Refused urlProtocol file reason ->
  validateLoop urlProtocol (accepted ++ file :: rest) acc = inl (badRequest reason).
Proof.
  induction accepted as [|f fs IH]; intros acc pushed file rest reason H Href.
  - simpl.
    assert (Hf : validateFile urlProtocol file = inl (badRequest reason))
      by (apply validateFile_refused; eauto).
    rewrite Hf. reflexivity.
  - inversion H as [|? v ? vs Hf Hrest]; subst. simpl.
    apply validateFile_acceptedAs in Hf. rewrite Hf. eapply IH; eauto.
Qed.

(** Every list of entries passes as a whole, or has a first entry that is
    refused. *)
Lemma validateLoop_cases pending :
  (exists validFiles, Forall2 (acceptedAs urlProtocol) pending validFiles)
  \/ (exists accepted pushed file rest reason,
        pending = accepted ++ file :: rest
        /\ Forall2 (acceptedAs urlProtocol) accepted pushed
        /\ Refused urlProtocol file reason).
Proof.
  induction pending as [|file rest IH].
  - left. exists []. constructor.
  - destruct (validateFile urlProtocol file) as [response|v] eqn:Hf.
    + right. apply validateFile_refused in Hf as (reason & Href & _).
      exists [], [], file, rest, reason. repeat split; [constructor|exact Href].
    + apply validateFile_acceptedAs in Hf.
      destruct IH as [[vs Hall]|(accepted & pushed & bad & rest' & reason
                                  & -> & Hall & Href)].
      * left. exists (v :: vs). constructor; assumption.
      * right. exists (file :: accepted), (v :: pushed), bad, rest', reason.
        repeat split; [constructor; assumption|exact Href].
Qed.

End Validation.

(* ===================================================================== *)
(** ** The concurrent fetcher                                             *)
(* ===================================================================== *)

Lemma emitAll_nil w : emitAll [] w = w.
Proof. destruct w. unfold emitAll. simpl. rewrite app_nil_r. reflexivity. Qed.

Lemma emitAll_emit e es w : emitAll es (emit e w) = emitAll (e :: es) w.
Proof. unfold emitAll, emit. simpl. rewrite <- app_assoc. reflexivity. Qed.

Lemma emitAll_emit_last e es w : emit e (emitAll es w) = emitAll (es ++ [e]) w.
Proof. unfold emitAll, emit. simpl. rewrite <- app_assoc. reflexivity. Qed.

Lemma emitAll_app es1 es2 w : emitAll es2 (emitAll es1 w) = emitAll (es1 ++ es2) w.
Proof. unfold emitAll. simpl. rewrite <- app_assoc. reflexivity. Qed.

Lemma fetchCount_emit_fetch u w : fetchCount (emit (EvFetch u) w) = S (fetchCount w).
Proof.
  unfold fetchCount, emit. simpl. rewrite List.filter_app, List.length_app. simpl. lia.
Qed.

Lemma filter_isFetch_none es :
  forallb (fun e => negb (isFetch e)) es = true -> List.filter isFetch es = [].
Proof.
  induction es as [|e es IH]; intros H; simpl in *; [reflexivity|].
  apply andb_prop in H as [He Hes].
  destruct (isFetch e); [discriminate|auto].
Qed.

Lemma fetchCount_emitAll es w :
  forallb (fun e => negb (isFetch e)) es = true ->
  fetchCount (emitAll es w) = fetchCount w.
Proof.
  intros H. unfold fetchCount, emitAll. simpl.
  rewrite List.filter_app, List.length_app, (filter_isFetch_none es H). simpl. lia.
Qed.

Lemma settle_download file w :
  settle (download file) w
  = (Returned (downloadResult (origin w (fetchCount w) (url file)) file),
     emit (EvFetch (url file)) w).
Proof.
  unfold settle, download, globalFetch, downloadResult, payloadArrayBuffer.
  unfold_async.
  destruct (origin w (fetchCount w) (url file)) as [reason|st statusText payload];
    [reflexivity|].
  destruct (responseOk st); simpl; [|reflexivity].
  destruct payload; reflexivity.
Qed.

(** Every download is made, whatever the others do. *)
Lemma allSettled_download validFiles : forall w,
  allSettled (map download validFiles) w
  = (Returned (settledDownloads (origin w) (fetchCount w) validFiles),
     emitAll (map (fun f => EvFetch (url f)) validFiles) w).
Proof.
  induction validFiles as [|file rest IH]; intros w; simpl.
  - unfold ret. rewrite emitAll_nil. reflexivity.
  - erewrite bind_returned by apply settle_download.
    erewrite bind_returned by apply IH.
    unfold ret. rewrite fetchCount_emit_fetch, emitAll_emit. reflexivity.
Qed.

Lemma settledDownloads_length o validFiles : forall n,
  List.length (settledDownloads o n validFiles) = List.length validFiles.
Proof. induction validFiles; intros n; simpl; auto. Qed.

Lemma filter_isFulfilled_id {A} (rs : list (Settled A)) :
  List.filter isRejected rs = [] -> List.filter isFulfilled rs = rs.
Proof.
  induction rs as [|[v|e] rs IH]; simpl; intros H;
    [reflexivity | f_equal; auto | discriminate].
Qed.

Lemma fulfilledValues_all {A} (rs : list (Settled A)) :
  List.filter isRejected rs = [] -> map Fulfilled (fulfilledValues rs) = rs.
Proof.
  induction rs as [|[v|e] rs IH]; simpl; intros H;
    [reflexivity | f_equal; auto | discriminate].
Qed.

Section Fetcher.

Variable zipAddRejects : list DownloadedFile -> DownloadedFile -> option string.
Variable zipEncode : list DownloadedFile -> bytes.

(** [createZipFromFiles] in terms of what the downloads settle to. *)
Lemma createZipFromFiles_unfold validFiles w :
  let downloads := settledDownloads (origin w) (fetchCount w) validFiles in
  let w1 := emitAll (map (fun f => EvFetch (url f)) validFiles) w in
  createZipFromFiles zipAddRejects zipEncode validFiles w
  = match List.filter isRejected downloads with
    | [] => createZip zipAddRejects zipEncode (fulfilledValues downloads) w1
    | failed =>
        (Threw (mkError ("Failed to download some files: "
                         +:+ JsString.join ", " (map reasonMessage failed))), w1)
    end.
Proof.
  intros downloads w1. unfold createZipFromFiles.
  erewrite bind_returned by apply allSettled_download.
  fold downloads. fold w1.
  destruct (List.filter isRejected downloads) as [|r failed] eqn:Hfailed.
  - simpl. rewrite filter_isFulfilled_id by assumption. reflexivity.
  - reflexivity.
Qed.

End Fetcher.

(* ===================================================================== *)
(** ** The archive assembler                                              *)
(* ===================================================================== *)

Section Assembler.

Variable zipAddRejects : list DownloadedFile -> DownloadedFile -> option string.
Variable zipEncode : list DownloadedFile -> bytes.

Lemma allSettled_zipWriterAdd entries : forall w,
  acceptsAll zipAddRejects (zipWriter w) entries = true ->
  allSettled (map (zipWriterAdd zipAddRejects) entries) w
  = (Returned (map (fun _ => Fulfilled tt) entries),
     setZipWriter (zipWriter w ++ entries)
       (emitAll (map (fun f => EvZipAdd (dl_filename f)) entries) w)).
Proof.
  induction entries as [|file rest IH]; intros w Hacc; simpl in *.
  - unfold ret, setZipWriter. rewrite emitAll_nil, app_nil_r.
    destruct w; reflexivity.
  - destruct (zipAddRejects (zipWriter w) file) eqn:Hrej; [discriminate|].
    assert (Hadd : settle (zipWriterAdd zipAddRejects file) w
                   = (Returned (Fulfilled tt),
                      setZipWriter (zipWriter w ++ [file])
                        (emit (EvZipAdd (dl_filename file)) w))).
    { unfold zipWriterAdd. unfold_async. simpl. rewrite Hrej. reflexivity. }
    erewrite bind_returned by apply Hadd.
    erewrite bind_returned by (apply IH; exact Hacc).
    unfold ret, setZipWriter, emitAll, emit. simpl.
    rewrite <- !app_assoc. reflexivity.
Qed.

Lemma firstRejection_fulfilled {A B} (l : list B) (a : A) :
  firstRejection (map (fun _ => Fulfilled a) l) = inr (map (fun _ => a) l).
Proof.
  induction l as [|b l IH]; simpl; [reflexivity|]. rewrite IH. reflexivity.
Qed.

(** When the writer accepts them, the entries of the archive are the
    downloads, in the order of the list. *)
Lemma createZip_accepted downloaded w :
  acceptsAll zipAddRejects [] downloaded = true ->
  createZip zipAddRejects zipEncode downloaded w
  = (Returned (zipEncode downloaded),
     setZipWriter downloaded
       (emitAll (map (fun f => EvZipAdd (dl_filename f)) downloaded ++ [EvZipClose])
                w)).
Proof.
  intros Hacc. unfold createZip, promiseAll.
  pose proof (allSettled_zipWriterAdd downloaded (setZipWriter [] w) Hacc) as Hall.
  unfold mbind, Async_bind, bind at 1. unfold updateWorld at 1.
  unfold bind at 1. unfold bind at 1. rewrite Hall.
  rewrite firstRejection_fulfilled. unfold_async. simpl.
  unfold setZipWriter, emitAll, emit. simpl. rewrite <- !app_assoc. reflexivity.
Qed.

End Assembler.

(* ===================================================================== *)
(** ** What the results depend on                                         *)
(* ===================================================================== *)

Section Dependence.

Variable zipAddRejects : list DownloadedFile -> DownloadedFile -> option string.
Variable zipEncode : list DownloadedFile -> bytes.

Lemma allSettled_zipWriterAdd_result entries : forall w w',
  zipWriter w = zipWriter w' ->
  fst (allSettled (map (zipWriterAdd zipAddRejects) entries) w)
  = fst (allSettled (map (zipWriterAdd zipAddRejects) entries) w')
  /\ zipWriter (snd (allSettled (map (zipWriterAdd zipAddRejects) entries) w))
     = zipWriter (snd (allSettled (map (zipWriterAdd zipAddRejects) entries) w')).
Proof.
  induction entries as [|file rest IH]; intros w w' Hz; simpl.
  - split; [reflexivity|exact Hz].
  - unfold mbind, Async_bind, bind, settle, zipWriterAdd.
    unfold_async. simpl. rewrite <- Hz.
    destruct (zipAddRejects (zipWriter w) file) as [reason|].
    + specialize (IH (emit (EvZipAdd (dl_filename file)) w)
                     (emit (EvZipAdd (dl_filename file)) w') Hz).
      destruct (allSettled _ (emit _ w)) as [[rs|e] w1];
        destruct (allSettled _ (emit _ w')) as [[rs'|e'] w1'];
        simpl in *; destruct IH as [Hr Hw]; inversion Hr; subst; auto.
    + specialize (IH (setZipWriter (zipWriter w ++ [file])
                        (emit (EvZipAdd (dl_filename file)) w))
                     (setZipWriter (zipWriter w ++ [file])
                        (emit (EvZipAdd (dl_filename file)) w')) eq_refl).
      destruct (allSettled _ (setZipWriter _ (emit _ w))) as [[rs|e] w1];
        destruct (allSettled _ (setZipWriter _ (emit _ w'))) as [[rs'|e'] w1'];
        simpl in *; destruct IH as [Hr Hw]; inversion Hr; subst; auto.
Qed.

(** The archive depends on the downloads only: the writer is a new one. *)
Lemma createZip_result downloaded w w' :
  fst (createZip zipAddRejects zipEncode downloaded w)
  = fst (createZip zipAddRejects zipEncode downloaded w').
Proof.
  unfold createZip, promiseAll.
  destruct (allSettled_zipWriterAdd_result downloaded
              (setZipWriter [] w) (setZipWriter [] w') eq_refl) as [Hr Hw].
  unfold_async. simpl.
  destruct (allSettled _ (setZipWriter [] w)) as [[rs|e] w1];
    destruct (allSettled _ (setZipWriter [] w')) as [[rs'|e'] w1'];
    simpl in *; inversion Hr; subst; [|reflexivity].
  destruct (firstRejection rs'); simpl; [reflexivity|].
  rewrite Hw. reflexivity.
Qed.

(** The fetcher's result depends on the origins and on the number of
    fetches made before. *)
Lemma createZipFromFiles_result validFiles w w' :
  origin w = origin w' -> fetchCount w = fetchCount w' ->
  fst (createZipFromFiles zipAddRejects zipEncode validFiles w)
  = fst (createZipFromFiles zipAddRejects zipEncode validFiles w').
Proof.
  intros Ho Hn. rewrite !createZipFromFiles_unfold. rewrite Ho, Hn.
  destruct (List.filter isRejected _); [apply createZip_result|reflexivity].
Qed.

End Dependence.

(* ===================================================================== *)
(** ** The bundle cache                                                   *)
(* ===================================================================== *)

(** [getCachedZip] never throws; it makes no fetch. *)
Lemma getCachedZip_spec cacheKey w :
  exists es,
    getCachedZip cacheKey w = (Returned (lookupResult cacheKey w), emitAll es w)
    /\ quiet es = true.
Proof.
  unfold getCachedZip, lookupResult, lookupFails, cacheMatch, cacheCall.
  unfold_async. simpl.
  destruct (cacheFault w LookupOpen) as [reason|] eqn:Hopen; simpl.
  - exists [EvCache LookupOpen; EvError ("Error getting cached zip: " +:+ reason)].
    split; [world_eq|reflexivity].
  - destruct (cacheFault w LookupMatch) as [reason|] eqn:Hmatch; simpl.
    + exists [EvCache LookupOpen; EvCache LookupMatch;
              EvError ("Error getting cached zip: " +:+ reason)].
      split; [world_eq|reflexivity].
    + exists [EvCache LookupOpen; EvCache LookupMatch].
      split; [|reflexivity].
      destruct (cacheStore w !! cacheRequestUrl cacheKey) as [r|]; world_eq.
Qed.

(** [cacheZip] never throws. *)
Lemma cacheZip_returns cacheKey data etag w :
  exists w', cacheZip cacheKey data etag w = (Returned tt, w').
Proof.
  unfold cacheZip, cachePut, cacheCall. unfold_async. simpl.
  destruct (cacheFault w StoreOpen); simpl; [eauto|].
  destruct (cacheFault w StorePut); simpl; eauto.
Qed.

(* ===================================================================== *)
(** ** The handler                                                        *)
(* ===================================================================== *)

Section Handler.

Variable localeCompare : string -> string -> Z.
Variable urlProtocol : string -> option string.
Variable zipAddRejects : list DownloadedFile -> DownloadedFile -> option string.
Variable zipEncode : list DownloadedFile -> bytes.

Let handlePost := handlePostRequest localeCompare urlProtocol zipAddRejects zipEncode.
Let handle := fetch localeCompare urlProtocol zipAddRejects zipEncode.

Lemma handlePostRequest_rejects verb reason w :
  handlePost (mkRequest verb (JsonRejects reason)) w = (Threw (mkError reason), w).
Proof. reflexivity. Qed.

Lemma handlePostRequest_null verb w :
  handlePost (mkRequest verb JsonNull) w = (Threw (nullRead "files"), w).
Proof. reflexivity. Qed.

Lemma handlePostRequest_no_files verb doc w :
  files doc = FilesMissing \/ files doc = FilesNotArray \/ files doc = FilesArray [] ->
  handlePost (mkRequest verb (JsonDocument doc)) w
  = (Returned (badRequest "Invalid request: files array is required"), w).
Proof.
  intros H. unfold handlePost, handlePostRequest, requestJson, nonNull.
  unfold_async. simpl.
  destruct H as [-> | [-> | ->]]; reflexivity.
Qed.

Lemma handlePostRequest_null_entry verb ahead name w :
  handlePost (mkRequest verb
     (JsonDocument (mkJarRequest (FilesArrayWithNull ahead) name))) w
  = match validateLoop urlProtocol ahead [] with
    | inl response => (Returned response, w)
    | inr _ => (Threw (nullRead "url"), w)
    end.
Proof.
  unfold handlePost, handlePostRequest, requestJson, nonNull.
  unfold_async. simpl.
  destruct (validateLoop urlProtocol ahead []); reflexivity.
Qed.

Lemma handlePostRequest_invalid verb entries name response w :
  entries <> [] ->
  validateLoop urlProtocol entries [] = inl response ->
  handlePost (mkRequest verb (JsonDocument (mkJarRequest (FilesArray entries) name))) w
  = (Returned response, w).
Proof.
  intros Hne Hv. unfold handlePost, handlePostRequest, requestJson, nonNull.
  unfold_async. simpl.
  destruct entries as [|e es]; [congruence|]. rewrite Hv. reflexivity.
Qed.

Lemma handlePostRequest_valid verb entries name validFiles w :
  entries <> [] ->
  validateLoop urlProtocol entries [] = inr validFiles ->
  fst (handlePost (mkRequest verb
         (JsonDocument (mkJarRequest (FilesArray entries) name))) w)
  = bundleResult localeCompare zipAddRejects zipEncode validFiles name w.
Proof.
  intros Hne Hv. unfold handlePost, handlePostRequest, requestJson, nonNull, bundleResult.
  pose proof (validateLoop_length _ _ _ Hv) as Hlen.
  destruct entries as [|e es]; [congruence|].
  destruct validFiles as [|v vs]; [discriminate|].
  destruct (getCachedZip_spec (requestCacheKey localeCompare (v :: vs)) w)
    as (es' & Hget & Hquiet).
  unfold_async. cbn [json files]. rewrite Hv.
  change (List.length (v :: vs) =? 0)%nat with false. cbv beta iota.
  rewrite Hget.
  destruct (lookupResult (requestCacheKey localeCompare (v :: vs)) w) as [c|].
  - reflexivity.
  - cbn [zipFilename]. cbv beta iota.
    rewrite (createZipFromFiles_result zipAddRejects zipEncode (v :: vs) w
               (emit (EvLog "Creating new ZIP for files:") (emitAll es' w)));
      [|reflexivity|].
    + destruct (createZipFromFiles zipAddRejects zipEncode (v :: vs)
                  (emit (EvLog "Creating new ZIP for files:") (emitAll es' w)))
        as [[zipData|err] w2]; simpl; [|reflexivity].
      destruct (cacheZip _ zipData _ w2). reflexivity.
    + rewrite emitAll_emit_last. symmetry. apply fetchCount_emitAll.
      unfold quiet in *. rewrite forallb_app, Hquiet. reflexivity.
Qed.

(** The worker's handler always returns a response. *)
Lemma fetch_result request w :
  fst (handle request w)
  = Returned
      (if String.eqb (method request) "OPTIONS" then preflight
       else if String.eqb (method request) "POST"
            then match fst (handlePost request w) with
                 | Returned response => response
                 | Threw error => internalServerError error
                 end
            else methodNotAllowed).
Proof.
  unfold handle, fetch, handlePost.
  destruct (String.eqb (method request) "OPTIONS"); [reflexivity|].
  destruct (String.eqb (method request) "POST"); [|reflexivity].
  unfold tryCatch.
  destruct (handlePostRequest _ _ _ _ request w) as [[response|error] w'];
    reflexivity.
Qed.

End Handler.

(* ===================================================================== *)
(** ** Properties of the handler                                          *)
(* ===================================================================== *)

Section HandlerProperties.

Variable localeCompare : string -> string -> Z.
Variable urlProtocol : string -> option string.
Variable zipAddRejects : list DownloadedFile -> DownloadedFile -> option string.
Variable zipEncode : list DownloadedFile -> bytes.

Let handlePost := handlePostRequest localeCompare urlProtocol zipAddRejects zipEncode.
Let handle := fetch localeCompare urlProtocol zipAddRejects zipEncode.

Lemma existsb_nonempty {A} (f : A -> bool) l : existsb f l = true -> l <> [].
Proof. destruct l; [discriminate|congruence]. Qed.

(** C5.  A request with an entry whose url is outside the allow-list (or
    that has no url) is answered with a 400, and the world is left as it
    was: nothing is fetched, looked up or logged. *)
Theorem disallowed_source_rejected_before_fetch entries name w :
  existsb outsideAllowList entries = true ->
  exists response w',
    handle (mkRequest "POST"
              (JsonDocument (mkJarRequest (FilesArray entries) name))) w
    = (Returned response, w')
    /\ status response = 400
    /\ trace w' = trace w
    /\ fetchCount w' = fetchCount w.
Proof.
  intros Hout.
  destruct (validateLoop_outside urlProtocol entries [] Hout) as [reason Hv].
  exists (badRequest reason), w. split; [|repeat split].
  unfold handle, fetch. cbn [method]. change ("POST" =? "OPTIONS")%string with false.
  change ("POST" =? "POST")%string with true. cbv beta iota. unfold tryCatch.
  rewrite (handlePostRequest_invalid localeCompare urlProtocol zipAddRejects
             zipEncode "POST" entries name _ w (existsb_nonempty _ _ Hout) Hv).
  reflexivity.
Qed.

Lemma fetch_post_returned request w response w' :
  method request = "POST" ->
  handlePost request w = (Returned response, w') ->
  handle request w = (Returned response, w').
Proof.
  intros Hm Hp. unfold handle, fetch. rewrite Hm.
  change ("POST" =? "OPTIONS")%string with false.
  change ("POST" =? "POST")%string with true. cbv beta iota.
  unfold tryCatch. fold handlePost. rewrite Hp. reflexivity.
Qed.

(** The reason an entry is rejected with. *)
Lemma validateFile_reasons file r :
  validateFile urlProtocol file = inl r ->
  r = badRequest "Each file must have both url and filename properties"
  \/ exists u,
       raw_url file = Some u
       /\ (r = badRequest ("Invalid URL format: " +:+ u)
           \/ r = badRequest ("Invalid URL protocol: " +:+ u)
           \/ r = badRequest
                   ("URL must start with one of the allowed EssentialsX sources: "
                    +:+ JsString.join ", " allowedPrefixes +:+ ". Got: " +:+ u)).
Proof.
  unfold validateFile, present, orElse. intros H.
  destruct (raw_url file) as [u|]; [|injection H as <-; auto].
  destruct (JsString.truthy u); [|injection H as <-; auto].
  destruct (raw_filename file) as [name|]; [|injection H as <-; auto].
  destruct (JsString.truthy name); [|injection H as <-; auto].
  simpl in H. right. exists u. split; [reflexivity|].
  destruct (urlProtocol u) as [protocol|]; [|injection H as <-; auto].
  destruct (negb (String.eqb protocol "http:") && negb (String.eqb protocol "https:"));
    [injection H as <-; auto|].
  destruct (isAllowedSource u); [discriminate|].
  injection H as <-. auto.
Qed.

Lemma fetch_post_threw request w error w' :
  method request = "POST" ->
  handlePost request w = (Threw error, w') ->
  handle request w
  = (Returned (internalServerError error),
     emit (EvError ("Worker error: " +:+ message error)) w').
Proof.
  intros Hm Hp. unfold handle, fetch. rewrite Hm.
  change ("POST" =? "OPTIONS")%string with false.
  change ("POST" =? "POST")%string with true. cbv beta iota.
  unfold tryCatch. fold handlePost. rewrite Hp. reflexivity.
Qed.

(** C8 as the code has it.  A POST whose body is not JSON is answered with
    the 500 of the catch-all: the parser's message after
    [Internal Server Error: ], with the cross-origin header.  The same
    catch-all answers a body that is [null], and a [files] array with a
    [null] that the loop reaches, with the message of the [TypeError].
    The 400s with a reason of their own are those of a document of the
    declared type: for a file list that is missing, not an array or empty,
    and for the first entry that the loop refuses, which is one without
    url or filename, one whose url does not parse, one whose protocol is
    neither http nor https, or one whose source is not allowed.  Every
    list of entries passes as a whole or has such a first entry, and the
    loop body returns a 400 for exactly the refused entries. *)
Theorem malformed_body_is_internal_error :
  (forall reason w,
     handle (mkRequest "POST" (JsonRejects reason)) w
     = (Returned (internalServerError (mkError reason)),
        emit (EvError ("Worker error: " +:+ reason)) w)
     /\ status (internalServerError (mkError reason)) = 500
     /\ body (internalServerError (mkError reason))
        = BodyText ("Internal Server Error: " +:+ reason)
     /\ allowsAnyOrigin (internalServerError (mkError reason)))
  /\ (forall w,
        handle (mkRequest "POST" JsonNull) w
        = (Returned (internalServerError (nullRead "files")),
           emit (EvError ("Worker error: " +:+ message (nullRead "files"))) w)
        /\ status (internalServerError (nullRead "files")) = 500
        /\ body (internalServerError (nullRead "files"))
           = BodyText ("Internal Server Error: "
                       +:+ "Cannot read properties of null (reading 'files')")
        /\ allowsAnyOrigin (internalServerError (nullRead "files")))
  /\ (forall ahead validFiles name w,
        Forall2 (acceptedAs urlProtocol) ahead validFiles ->
        handle (mkRequest "POST"
                  (JsonDocument (mkJarRequest (FilesArrayWithNull ahead) name))) w
        = (Returned (internalServerError (nullRead "url")),
           emit (EvError ("Worker error: " +:+ message (nullRead "url"))) w)
        /\ status (internalServerError (nullRead "url")) = 500
        /\ body (internalServerError (nullRead "url"))
           = BodyText ("Internal Server Error: "
                       +:+ "Cannot read properties of null (reading 'url')")
        /\ allowsAnyOrigin (internalServerError (nullRead "url")))
  /\ (forall doc w,
        files doc = FilesMissing \/ files doc = FilesNotArray
        \/ files doc = FilesArray [] ->
        handle (mkRequest "POST" (JsonDocument doc)) w
        = (Returned (badRequest "Invalid request: files array is required"), w))
  /\ (forall accepted validFiles file rest reason name w,
        Forall2 (acceptedAs urlProtocol) accepted validFiles ->
        Refused urlProtocol file reason ->
        handle (mkRequest "POST"
                  (JsonDocument
                     (mkJarRequest (FilesArray (accepted ++ file :: rest)) name))) w
        = (Returned (badRequest reason), w)
        /\ handle (mkRequest "POST"
                     (JsonDocument
                        (mkJarRequest (FilesArrayWithNull (accepted ++ file :: rest))
                           name))) w
           = (Returned (badRequest reason), w))
  /\ (forall reason,
        status (badRequest reason) = 400
        /\ body (badRequest reason) = BodyText reason
        /\ allowsAnyOrigin (badRequest reason))
  /\ (forall entries,
        (exists validFiles, Forall2 (acceptedAs urlProtocol) entries validFiles)
        \/ (exists accepted validFiles file rest reason,
              entries = accepted ++ file :: rest
              /\ Forall2 (acceptedAs urlProtocol) accepted validFiles
              /\ Refused urlProtocol file reason))
  /\ (forall file response,
        validateFile urlProtocol file = inl response
        <-> exists reason,
              Refused urlProtocol file reason /\ response = badRequest reason).
Proof.
  repeat apply conj.
  - intros reason w. repeat split.
  - intros w. repeat split.
  - intros ahead validFiles name w Hall.
    split; [|repeat split].
    apply fetch_post_threw; [reflexivity|].
    unfold handlePost. rewrite handlePostRequest_null_entry.
    rewrite (validateLoop_accepted urlProtocol ahead [] validFiles Hall).
    reflexivity.
  - intros doc w Hfiles. apply fetch_post_returned; [reflexivity|].
    apply handlePostRequest_no_files. exact Hfiles.
  - intros accepted validFiles file rest reason name w Hall Href.
    pose proof (validateLoop_refused urlProtocol accepted [] validFiles
                  file rest reason Hall Href) as Hv.
    split; apply fetch_post_returned; try reflexivity.
    + apply handlePostRequest_invalid; [|exact Hv].
      destruct accepted; discriminate.
    + unfold handlePost. rewrite handlePostRequest_null_entry, Hv. reflexivity.
  - intros reason. repeat split.
  - apply validateLoop_cases.
  - apply validateFile_refused.
Qed.

(** C9 at the failing input.  A request that is neither OPTIONS nor POST,
    here a GET, is answered with a 405 that carries no cross-origin
    header. *)
Theorem method_not_allowed_lacks_cors requestBody w :
  handle (mkRequest "GET" requestBody) w = (Returned methodNotAllowed, w)
  /\ status methodNotAllowed = 405
  /\ headersGet "Access-Control-Allow-Origin" (headers methodNotAllowed) = None.
Proof. repeat split. Qed.

Lemma validateFile_reason file r :
  validateFile urlProtocol file = inl r ->
  r <> badRequest "No valid files provided".
Proof.
  unfold validateFile. intros H Heq. subst r.
  repeat match type of H with
         | (if ?c then _ else _) = _ => destruct c
         | match ?x with _ => _ end = _ => destruct x
         end;
    inversion H.
Qed.

Lemma validateLoop_reason pending : forall acc r,
  validateLoop urlProtocol pending acc = inl r ->
  r <> badRequest "No valid files provided".
Proof.
  induction pending as [|file rest IH]; intros acc r H; simpl in H.
  - discriminate.
  - destruct (validateFile urlProtocol file) as [r'|v] eqn:Hf.
    + inversion H; subst. eapply validateFile_reason; eauto.
    + eapply IH; eauto.
Qed.

Lemma bundleResult_not_bad_request validFiles name w reason :
  bundleResult localeCompare zipAddRejects zipEncode validFiles name w
  <> Returned (badRequest reason).
Proof.
  unfold bundleResult.
  destruct (lookupResult _ w); [discriminate|].
  destruct (fst (createZipFromFiles _ _ _ w)); discriminate.
Qed.

(** C10.  On a non-empty [files] array the loop returns a 400 or a list
    as long as the array, so the test of line 115 is false and the
    response [No valid files provided] is never given. *)
Theorem no_valid_files_branch_unreachable verb entries name w :
  entries <> [] ->
  (forall response,
     validateLoop urlProtocol entries [] = inl response -> status response = 400)
  /\ (forall validFiles,
        validateLoop urlProtocol entries [] = inr validFiles ->
        List.length validFiles = List.length entries
        /\ (List.length validFiles =? 0)%nat = false)
  /\ fst (handlePost (mkRequest verb
            (JsonDocument (mkJarRequest (FilesArray entries) name))) w)
     <> Returned (badRequest "No valid files provided").
Proof.
  intros Hne. split; [|split].
  - intros response Hv. apply validateLoop_inl in Hv as [reason ->]. reflexivity.
  - intros validFiles Hv. apply validateLoop_length in Hv. split; [exact Hv|].
    apply Nat.eqb_neq. rewrite Hv. destruct entries; [congruence|discriminate].
  - destruct (validateLoop urlProtocol entries []) as [response|validFiles] eqn:Hv.
    + unfold handlePost. rewrite (handlePostRequest_invalid _ _ _ _ _ _ _ _ _ Hne Hv).
      simpl. intros Heq. inversion Heq as [Hr].
      exact (validateLoop_reason _ _ _ Hv Hr).
    + unfold handlePost. rewrite (handlePostRequest_valid _ _ _ _ _ _ _ _ _ Hne Hv).
      apply bundleResult_not_bad_request.
Qed.

End HandlerProperties.

(* ===================================================================== *)
(** ** Cache failures                                                     *)
(* ===================================================================== *)

Section CacheFailures.

Variable localeCompare : string -> string -> Z.
Variable urlProtocol : string -> option string.
Variable zipAddRejects : list DownloadedFile -> DownloadedFile -> option string.
Variable zipEncode : list DownloadedFile -> bytes.

Let handlePost := handlePostRequest localeCompare urlProtocol zipAddRejects zipEncode.
Let handle := fetch localeCompare urlProtocol zipAddRejects zipEncode.

(** The response depends on the world through the origins, the number of
    fetches made before, and what the lookup returns. *)
Lemma handlePostRequest_depends request w w' :
  origin w = origin w' ->
  fetchCount w = fetchCount w' ->
  (forall cacheKey, lookupResult cacheKey w = lookupResult cacheKey w') ->
  fst (handlePost request w) = fst (handlePost request w').
Proof.
  intros Ho Hn Hl. destruct request as [verb [reason| |[fs name]]].
  - reflexivity.
  - reflexivity.
  - destruct fs as [| |entries|ahead].
    + reflexivity.
    + reflexivity.
    + destruct entries as [|e es] eqn:He; [reflexivity|]. rewrite <- He.
      assert (Hne : entries <> []) by (subst; discriminate).
      destruct (validateLoop urlProtocol entries []) as [response|validFiles] eqn:Hv.
      * unfold handlePost.
        rewrite !(handlePostRequest_invalid _ _ _ _ _ _ _ _ _ Hne Hv). reflexivity.
      * unfold handlePost.
        rewrite !(handlePostRequest_valid _ _ _ _ _ _ _ _ _ Hne Hv).
        unfold bundleResult. rewrite Hl.
        rewrite (createZipFromFiles_result _ _ _ w w' Ho Hn). reflexivity.
    + unfold handlePost. rewrite !handlePostRequest_null_entry.
      destruct (validateLoop urlProtocol ahead []); reflexivity.
Qed.

Lemma fetch_depends request w w' :
  origin w = origin w' ->
  fetchCount w = fetchCount w' ->
  (forall cacheKey, lookupResult cacheKey w = lookupResult cacheKey w') ->
  fst (handle request w) = fst (handle request w').
Proof.
  intros Ho Hn Hl. unfold handle. rewrite !fetch_result.
  pose proof (handlePostRequest_depends request w w' Ho Hn Hl) as Hpost.
  unfold handlePost in Hpost. rewrite Hpost. reflexivity.
Qed.

(** C7.  The lookup never throws, and returns null when one of its calls
    to the cache throws; the store never throws; a request whose lookup
    fails gets the response it gets from a cache that works and holds
    nothing; and the faults of the store do not change the response. *)
Theorem cache_failures_are_absorbed :
  (forall cacheKey w,
     exists w', getCachedZip cacheKey w = (Returned (lookupResult cacheKey w), w'))
  /\ (forall cacheKey w,
        lookupFails w = true -> fst (getCachedZip cacheKey w) = Returned None)
  /\ (forall cacheKey data etag w,
        fst (cacheZip cacheKey data etag w) = Returned tt)
  /\ (forall request w,
        lookupFails w = true ->
        fst (handle request w) = fst (handle request (withEmptyCache w)))
  /\ (forall request w atOpen atPut,
        fst (handle request (withStoreFaults atOpen atPut w))
        = fst (handle request w)).
Proof.
  split; [|split; [|split; [|split]]].
  - intros cacheKey w. destruct (getCachedZip_spec cacheKey w) as (es & H & _).
    eauto.
  - intros cacheKey w Hfail. destruct (getCachedZip_spec cacheKey w) as (es & H & _).
    rewrite H. unfold lookupResult. rewrite Hfail. reflexivity.
  - intros cacheKey data etag w.
    destruct (cacheZip_returns cacheKey data etag w) as [w' H]. rewrite H.
    reflexivity.
  - intros request w Hfail. apply fetch_depends; try reflexivity.
    intros cacheKey. unfold lookupResult. rewrite Hfail.
    unfold lookupFails, withEmptyCache. simpl. rewrite lookup_empty. reflexivity.
  - intros request w atOpen atPut. apply fetch_depends; reflexivity.
Qed.

End CacheFailures.

(* ===================================================================== *)
(** ** All or nothing, and the order of the archive                       *)
(* ===================================================================== *)

Lemma validateLoop_names urlProtocol entries validFiles :
  validateLoop urlProtocol entries [] = inr validFiles ->
  map filename validFiles = map requestedName entries.
Proof.
  intros Hv. apply validateLoop_inr in Hv as (pushed & -> & Hall). simpl.
  induction Hall as [|file v fs vs Hf _ IH]; [reflexivity|].
  simpl. rewrite IH. f_equal.
  apply validateFile_inr in Hf as (u & name & _ & Hname & _ & Hn & _ & ->).
  unfold requestedName, orElse. rewrite Hname, Hn. reflexivity.
Qed.

Lemma settledDownloads_members o validFiles : forall n members,
  settledDownloads o n validFiles = map Fulfilled members ->
  map dl_filename members = map filename validFiles
  /\ forall i file,
       nth_error validFiles i = Some file ->
       exists st statusText data,
         o (n + i)%nat (url file) = FetchResponds st statusText (PayloadData data)
         /\ responseOk st = true
         /\ nth_error members i = Some (mkDownloaded (filename file) data).
Proof.
  induction validFiles as [|f fs IH]; intros n members H.
  - destruct members; [|discriminate]. split; [reflexivity|].
    intros [|i] file Hi; discriminate.
  - destruct members as [|m ms]; [discriminate|]. simpl in H.
    injection H as Hhead Htail. destruct (IH _ _ Htail) as [Hnames Hnth].
    unfold downloadResult in Hhead.
    destruct (o n (url f)) as [reason|st statusText payload] eqn:Ho; [discriminate|].
    destruct (responseOk st) eqn:Hok; [|discriminate].
    destruct payload as [data|reason]; [|discriminate].
    injection Hhead as <-. split.
    + simpl. rewrite Hnames. reflexivity.
    + intros [|i] file Hi; simpl in Hi.
      * injection Hi as <-. exists st, statusText, data.
        rewrite Nat.add_0_r. auto.
      * destruct (Hnth i file Hi) as (st' & text' & data' & H1 & H2 & H3).
        exists st', text', data'. rewrite Nat.add_succ_r. auto.
Qed.

Section FetchAndAssemble.

Variable zipAddRejects : list DownloadedFile -> DownloadedFile -> option string.
Variable zipEncode : list DownloadedFile -> bytes.

(** C2 as the code has it.  Every download is made and settles, whatever
    the others do.  When one is rejected the whole throws one error, whose
    message lists the reasons of all rejected downloads in the order of the
    list, and the world is the one after the fetches, in which no entry
    was added to any archive; a download rejected for its
    status has a reason that names its url, the status and the status text.
    When none is rejected the downloads go to [createZip]. *)
Theorem fetch_step_is_all_or_nothing validFiles w :
  let downloads := settledDownloads (origin w) (fetchCount w) validFiles in
  let failed := List.filter isRejected downloads in
  let w1 := emitAll (map (fun f => EvFetch (url f)) validFiles) w in
  allSettled (map download validFiles) w = (Returned downloads, w1)
  /\ List.length downloads = List.length validFiles
  /\ zipWriter w1 = zipWriter w
  /\ List.filter isZip (trace w1) = List.filter isZip (trace w)
  /\ (failed <> [] ->
      createZipFromFiles zipAddRejects zipEncode validFiles w
      = (Threw (mkError ("Failed to download some files: "
                         +:+ JsString.join ", " (map reasonMessage failed))),
         w1))
  /\ (failed = [] ->
      createZipFromFiles zipAddRejects zipEncode validFiles w
      = createZip zipAddRejects zipEncode (fulfilledValues downloads) w1
      /\ map Fulfilled (fulfilledValues downloads) = downloads)
  /\ (forall file st statusText payload,
        responseOk st = false ->
        downloadResult (FetchResponds st statusText payload) file
        = Rejected (mkError ("Failed to download " +:+ url file +:+ ": "
                             +:+ JsString.ofNumber st +:+ " " +:+ statusText))).
Proof.
  intros downloads failed w1.
  split; [apply allSettled_download|].
  split; [apply settledDownloads_length|].
  split; [reflexivity|].
  split.
  { unfold w1, emitAll. simpl. rewrite List.filter_app.
    replace (List.filter isZip (map (fun f => EvFetch (url f)) validFiles))
      with (@nil Event); [apply app_nil_r|].
    clear. induction validFiles; simpl; auto. }
  pose proof (createZipFromFiles_unfold zipAddRejects zipEncode validFiles w) as Hu.
  cbv zeta in Hu. fold downloads in Hu. fold failed in Hu. fold w1 in Hu.
  split; [|split].
  - intros Hne. rewrite Hu. destruct failed; [congruence|reflexivity].
  - intros Hnil. rewrite Hu, Hnil. split; [reflexivity|].
    apply fulfilledValues_all. exact Hnil.
  - intros file st statusText payload Hok. unfold downloadResult.
    rewrite Hok. reflexivity.
Qed.

(** C4.  When every download of a validated list succeeds and the writer
    accepts the entries, the archive is made of exactly one entry per
    file, named as the file and holding what its url served, in the order
    of the list, which is the order of the request. *)
Theorem archive_members_follow_request_order urlProtocol entries validFiles
    members w :
  validateLoop urlProtocol entries [] = inr validFiles ->
  settledDownloads (origin w) (fetchCount w) validFiles = map Fulfilled members ->
  acceptsAll zipAddRejects [] members = true ->
  createZipFromFiles zipAddRejects zipEncode validFiles w
  = (Returned (zipEncode members),
     setZipWriter members
       (emitAll (map (fun f => EvFetch (url f)) validFiles
                 ++ map (fun f => EvZipAdd (filename f)) validFiles
                 ++ [EvZipClose]) w))
  /\ map dl_filename members = map requestedName entries
  /\ List.length members = List.length entries
  /\ forall i file,
       nth_error validFiles i = Some file ->
       exists st statusText data,
         origin w (fetchCount w + i)%nat (url file)
         = FetchResponds st statusText (PayloadData data)
         /\ nth_error members i = Some (mkDownloaded (filename file) data).
Proof.
  intros Hv Hdl Hacc.
  destruct (settledDownloads_members _ _ _ _ Hdl) as [Hnames Hnth].
  split; [|split; [|split]].
  - rewrite createZipFromFiles_unfold. rewrite Hdl.
    assert (Hnone : List.filter isRejected (map Fulfilled members) = []).
    { clear. induction members; simpl; auto. }
    rewrite Hnone.
    assert (Hvals : fulfilledValues (map Fulfilled members) = members).
    { clear. induction members; simpl; [reflexivity|]. f_equal; auto. }
    rewrite Hvals, (createZip_accepted _ _ _ _ Hacc).
    rewrite emitAll_app.
    replace (map (fun f => EvZipAdd (dl_filename f)) members)
      with (map (fun f => EvZipAdd (filename f)) validFiles).
    + reflexivity.
    + rewrite <- (map_map filename EvZipAdd), <- Hnames, map_map. reflexivity.
  - rewrite Hnames. eapply validateLoop_names; eauto.
  - rewrite <- (validateLoop_length _ _ _ Hv), <- (length_map dl_filename),
      Hnames, length_map. reflexivity.
  - intros i file Hi. destruct (Hnth i file Hi) as (st & text & data & H1 & _ & H3).
    eauto.
Qed.

End FetchAndAssemble.

(* ===================================================================== *)
(** ** Filename normalisation                                             *)
(* ===================================================================== *)

Ltac by_code_unit c :=
  destruct c as [[] [] [] [] [] [] [] []]; vm_compute;
  split; intros H; try discriminate H; try reflexivity;
  try (left; reflexivity); try (right; reflexivity);
  destruct H as [H|H]; discriminate H.

Lemma lowerUnit_dot c : JsString.lowerUnit c = "."%char <-> c = "."%char.
Proof.
  destruct c as [[] [] [] [] [] [] [] []]; vm_compute;
    split; intros H; try discriminate H; reflexivity.
Qed.

Lemma lowerUnit_j c :
  JsString.lowerUnit c = "j"%char <-> (c = "j"%char \/ c = "J"%char).
Proof. by_code_unit c. Qed.

Lemma lowerUnit_a c :
  JsString.lowerUnit c = "a"%char <-> (c = "a"%char \/ c = "A"%char).
Proof. by_code_unit c. Qed.

Lemma lowerUnit_r c :
  JsString.lowerUnit c = "r"%char <-> (c = "r"%char \/ c = "R"%char).
Proof. by_code_unit c. Qed.

Lemma toLowerCase_length s :
  String.length (JsString.toLowerCase s) = String.length s.
Proof. induction s; simpl; auto. Qed.

Lemma toLowerCase_drop s : forall n,
  JsString.drop n (JsString.toLowerCase s) = JsString.toLowerCase (JsString.drop n s).
Proof. induction s; intros [|n]; simpl; auto. Qed.

Lemma append_cons c a b : String c a +:+ b = String c (a +:+ b).
Proof. reflexivity. Qed.

Lemma append_empty b : EmptyString +:+ b = b.
Proof. reflexivity. Qed.

Lemma take_drop s : forall n, JsString.take n s +:+ JsString.drop n s = s.
Proof.
  induction s as [|c s IH]; intros [|n]; simpl; try reflexivity.
  rewrite append_cons, IH. reflexivity.
Qed.

Lemma drop_length s : forall n,
  String.length (JsString.drop n s) = (String.length s - n)%nat.
Proof. induction s; intros [|n]; simpl; auto. Qed.

Lemma drop_append stem suffix :
  JsString.drop (String.length stem) (stem +:+ suffix) = suffix.
Proof.
  induction stem as [|c stem IH]; [reflexivity|].
  rewrite append_cons. simpl. exact IH.
Qed.

Lemma append_length a b :
  String.length (a +:+ b) = (String.length a + String.length b)%nat.
Proof.
  induction a as [|c a IH]; [reflexivity|].
  rewrite append_cons. simpl. rewrite IH. reflexivity.
Qed.

Lemma toLowerCase_jar s :
  JsString.toLowerCase s = ".jar" <->
  exists d j a r,
    s = String d (String j (String a (String r EmptyString)))
    /\ d = "."%char
    /\ (j = "j"%char \/ j = "J"%char)
    /\ (a = "a"%char \/ a = "A"%char)
    /\ (r = "r"%char \/ r = "R"%char).
Proof.
  split.
  - intros H.
    destruct s as [|d [|j [|a [|r [|x s]]]]]; try discriminate H.
    simpl in H. injection H as Hd Hj Ha Hr.
    exists d, j, a, r. split; [reflexivity|].
    rewrite <- lowerUnit_dot, <- lowerUnit_j, <- lowerUnit_a, <- lowerUnit_r.
    auto.
  - intros (d & j & a & r & -> & Hd & Hj & Ha & Hr). simpl.
    apply lowerUnit_dot in Hd. apply lowerUnit_j in Hj.
    apply lowerUnit_a in Ha. apply lowerUnit_r in Hr.
    rewrite Hd, Hj, Ha, Hr. reflexivity.
Qed.

(** The test of line 108 decides the spec's predicate. *)
Lemma endsWith_jar_iff name :
  JsString.endsWith (JsString.toLowerCase name) ".jar" = true
  <-> endsWithJarAnyCase name.
Proof.
  unfold JsString.endsWith, endsWithJarAnyCase.
  rewrite toLowerCase_length, toLowerCase_drop. simpl String.length.
  split.
  - intros H. apply andb_prop in H as [Hlen Heq].
    apply String.eqb_eq in Heq.
    apply toLowerCase_jar in Heq as (d & j & a & r & Hs & Hrest).
    exists (JsString.take (String.length name - 4) name), d, j, a, r.
    split; [|exact Hrest]. rewrite <- Hs. symmetry. apply take_drop.
  - intros (stem & d & j & a & r & -> & Hrest).
    rewrite append_length. simpl String.length.
    replace (String.length stem + 4 - 4)%nat with (String.length stem) by lia.
    rewrite drop_append. apply andb_true_intro. split.
    + apply Nat.leb_le. lia.
    + apply String.eqb_eq. apply toLowerCase_jar. exists d, j, a, r. auto.
Qed.

(** C6.  The suffix is appended exactly when the filename does not end
    with it in some case, and otherwise the filename is kept as it is; the
    validated entries carry the filenames so normalised. *)
Theorem filename_normalisation name :
  (endsWithJarAnyCase name -> jarFilename name = name)
  /\ (~ endsWithJarAnyCase name -> jarFilename name = name +:+ ".jar")
  /\ (jarFilename name = name +:+ ".jar" -> ~ endsWithJarAnyCase name)
  /\ (forall urlProtocol u,
        validateFile urlProtocol (mkRawFile (Some u) (Some name))
        = inr (mkValidFile u (jarFilename name))
        \/ exists reason,
             validateFile urlProtocol (mkRawFile (Some u) (Some name))
             = inl (badRequest reason)).
Proof.
  unfold jarFilename. split; [|split; [|split]].
  - intros H. apply endsWith_jar_iff in H. rewrite H. reflexivity.
  - intros H. destruct (JsString.endsWith _ _) eqn:E; [|reflexivity].
    apply endsWith_jar_iff in E. contradiction.
  - intros H Hends. apply endsWith_jar_iff in Hends. rewrite Hends in H.
    apply (f_equal String.length) in H. rewrite append_length in H.
    simpl in H. lia.
  - intros urlProtocol u.
    destruct (validateFile urlProtocol (mkRawFile (Some u) (Some name)))
      as [r|v] eqn:Hv.
    + right. apply validateFile_inl in Hv as [reason ->]. eauto.
    + left. apply validateFile_inr in Hv as (u' & n' & Hu & Hn & _ & _ & _ & ->).
      simpl in Hu, Hn. injection Hu as <-. injection Hn as <-. reflexivity.
Qed.

(* ===================================================================== *)
(** ** Sorting with a consistent comparator                               *)
(* ===================================================================== *)

Section Sorting.

Context {A : Type} (compare : A -> A -> Z).
Hypothesis consistent : ConsistentComparator compare.

Let le (a b : A) : Prop := compare a b <= 0.

Lemma le_total a b : le a b \/ le b a.
Proof.
  unfold le. destruct (Z_le_gt_dec (compare a b) 0) as [H|H]; [auto|].
  right. assert (compare b a < 0) by (apply (compare_antisym _ consistent); lia).
  lia.
Qed.

Lemma le_le_equal a b : le a b -> le b a -> compare a b = 0.
Proof.
  unfold le. intros Hab Hba.
  destruct (Z.eq_dec (compare a b) 0) as [H|H]; [exact H|].
  assert (compare a b < 0) as Hlt by lia.
  apply (compare_antisym _ consistent) in Hlt. lia.
Qed.

Lemma sortInsert_permutation x l : Permutation (x :: l) (sortInsert compare x l).
Proof.
  induction l as [|y l IH]; simpl; [reflexivity|].
  destruct (compare x y <=? 0); [reflexivity|].
  rewrite perm_swap. constructor. exact IH.
Qed.

Lemma arraySort_permutation l : Permutation l (arraySort compare l).
Proof.
  induction l as [|x l IH]; simpl; [constructor|].
  rewrite <- sortInsert_permutation. constructor. exact IH.
Qed.

Lemma sortInsert_ascending x l :
  Ascending compare l -> Ascending compare (sortInsert compare x l).
Proof.
  induction 1 as [|y l Hall Hasc IH]; simpl.
  - constructor; constructor.
  - destruct (compare x y <=? 0) eqn:Hxy.
    + apply Z.leb_le in Hxy. constructor; [|constructor; assumption].
      constructor; [exact Hxy|].
      eapply List.Forall_impl; [|exact Hall]. intros z Hz.
      exact (compare_trans _ consistent x y z Hxy Hz).
    + apply Z.leb_gt in Hxy. constructor; [|exact IH].
      assert (Hyx : le y x).
      { destruct (le_total y x) as [H|H]; [exact H|]. unfold le in H. lia. }
      eapply Permutation_Forall; [apply sortInsert_permutation|].
      constructor; assumption.
Qed.

Lemma arraySort_ascending l : Ascending compare (arraySort compare l).
Proof.
  induction l as [|x l IH]; simpl; [constructor|].
  apply sortInsert_ascending. exact IH.
Qed.

(** Two ascending lists with the same elements are the same list, when
    elements that compare equal are equal. *)
Lemma ascending_unique l1 : forall l2,
  Ascending compare l1 -> Ascending compare l2 -> Permutation l1 l2 ->
  (forall a b, In a l1 -> In b l1 -> compare a b = 0 -> a = b) ->
  l1 = l2.
Proof.
  induction l1 as [|x l1 IH]; intros l2 H1 H2 Hperm Hties.
  - apply Permutation_nil in Hperm. congruence.
  - destruct l2 as [|y l2].
    { symmetry in Hperm. apply Permutation_nil in Hperm. discriminate. }
    inversion H1 as [|? ? Hx Hasc1]; subst.
    inversion H2 as [|? ? Hy Hasc2]; subst.
    assert (Hxy : x = y).
    { assert (Hin_y : In y (x :: l1)).
      { eapply Permutation_in; [symmetry; exact Hperm|left; reflexivity]. }
      assert (Hin_x : In x (y :: l2)).
      { eapply Permutation_in; [exact Hperm|left; reflexivity]. }
      apply Hties; [left; reflexivity|exact Hin_y|].
      apply le_le_equal.
      - destruct Hin_y as [->|Hin]; [unfold le; rewrite (compare_refl _ consistent); lia|].
        rewrite Forall_forall in Hx. apply Hx. apply list_elem_of_In. exact Hin.
      - destruct Hin_x as [->|Hin]; [unfold le; rewrite (compare_refl _ consistent); lia|].
        rewrite Forall_forall in Hy. apply Hy. apply list_elem_of_In. exact Hin. }
    subst y. f_equal. apply IH; auto.
    + eapply Permutation_cons_inv; exact Hperm.
    + intros a b Ha Hb. apply Hties; right; assumption.
Qed.

(** Sorting forgets the order of the input, ties apart. *)
Lemma arraySort_permutation_invariant l1 l2 :
  Permutation l1 l2 ->
  (forall a b, In a l1 -> In b l1 -> compare a b = 0 -> a = b) ->
  arraySort compare l1 = arraySort compare l2.
Proof.
  intros Hperm Hties. apply ascending_unique.
  - apply arraySort_ascending.
  - apply arraySort_ascending.
  - rewrite <- !arraySort_permutation. exact Hperm.
  - intros a b Ha Hb. apply Hties.
    + eapply Permutation_in; [symmetry; apply arraySort_permutation|exact Ha].
    + eapply Permutation_in; [symmetry; apply arraySort_permutation|exact Hb].
Qed.

End Sorting.

(** The sample collator is a consistent comparator. *)
Lemma codeUnitCompare_consistent : ConsistentComparator Sample.codeUnitCompare.
Proof.
  constructor.
  - induction a as [|x a IH]; simpl; [reflexivity|].
    rewrite Z.sub_diag. simpl. exact IH.
  - induction a as [|x a IH]; intros [|y b]; simpl; try lia.
    specialize (IH b).
    replace (Z.of_N (N_of_ascii y) - Z.of_N (N_of_ascii x))
      with (- (Z.of_N (N_of_ascii x) - Z.of_N (N_of_ascii y))) by lia.
    generalize (Z.of_N (N_of_ascii x) - Z.of_N (N_of_ascii y)). intros d.
    destruct (Z.eqb_spec d 0) as [->|Hd]; [exact IH|].
    destruct (Z.eqb_spec (- d) 0); lia.
  - induction a as [|x a IH]; intros [|y b] [|z c]; simpl; try lia.
    specialize (IH b c).
    assert (Hsum : Z.of_N (N_of_ascii x) - Z.of_N (N_of_ascii z)
                   = (Z.of_N (N_of_ascii x) - Z.of_N (N_of_ascii y))
                     + (Z.of_N (N_of_ascii y) - Z.of_N (N_of_ascii z))) by lia.
    rewrite Hsum.
    generalize (Z.of_N (N_of_ascii x) - Z.of_N (N_of_ascii y)).
    generalize (Z.of_N (N_of_ascii y) - Z.of_N (N_of_ascii z)).
    intros d2 d1.
    destruct (Z.eqb_spec d1 0) as [->|H1];
      destruct (Z.eqb_spec d2 0) as [->|H2]; simpl.
    + exact IH.
    + rewrite Z.add_0_l. destruct (Z.eqb_spec d2 0); lia.
    + rewrite Z.add_0_r. destruct (Z.eqb_spec d1 0); lia.
    + destruct (Z.eqb_spec (d1 + d2) 0); lia.
Qed.

(* ===================================================================== *)
(** ** The cache key and the order of the request                         *)
(* ===================================================================== *)

Section CacheKey.

Variable localeCompare : string -> string -> Z.
Variable urlProtocol : string -> option string.

Lemma validateLoop_complete pending : forall acc pushed,
  Forall2 (fun file v => validateFile urlProtocol file = inr v) pending pushed ->
  validateLoop urlProtocol pending acc = inr (acc ++ pushed).
Proof.
  induction pending as [|file rest IH]; intros acc pushed H.
  - inversion H; subst. rewrite app_nil_r. reflexivity.
  - inversion H as [|? v ? vs Hf Hrest]; subst. simpl. rewrite Hf.
    rewrite (IH _ _ Hrest), <- app_assoc. reflexivity.
Qed.

Lemma validated_permutation entries1 entries2 :
  Permutation entries1 entries2 ->
  forall validFiles1,
    Forall2 (fun file v => validateFile urlProtocol file = inr v)
            entries1 validFiles1 ->
    exists validFiles2,
      Forall2 (fun file v => validateFile urlProtocol file = inr v)
              entries2 validFiles2
      /\ Permutation validFiles1 validFiles2.
Proof.
  induction 1 as [|e l l' Hp IH|e e' l|l l' l'' Hp1 IH1 Hp2 IH2];
    intros vs Hv.
  - inversion Hv; subst. exists []. split; constructor.
  - inversion Hv as [|? v ? vs' Hf Hrest]; subst.
    destruct (IH _ Hrest) as (vs2 & Hv2 & Hperm).
    exists (v :: vs2). split; constructor; assumption.
  - inversion Hv as [|? v ? vs' Hf Hrest]; subst.
    inversion Hrest as [|? v' ? vs'' Hf' Hrest']; subst.
    exists (v' :: v :: vs''). split; [repeat constructor; assumption|].
    apply perm_swap.
  - destruct (IH1 _ Hv) as (vs2 & Hv2 & Hperm1).
    destruct (IH2 _ Hv2) as (vs3 & Hv3 & Hperm2).
    exists vs3. split; [assumption|]. etransitivity; eassumption.
Qed.

(** C1 as the code has it.  Two requests whose entries are the same up to
    their order validate to lists that are the same up to their order, and
    get the same cache key, provided the collator is a consistent
    comparator and entries whose urls compare equal are the same entry. *)
Theorem cache_key_ignores_request_order entries1 entries2 validFiles1 :
  ConsistentComparator localeCompare ->
  Permutation entries1 entries2 ->
  validateLoop urlProtocol entries1 [] = inr validFiles1 ->
  (forall a b, In a validFiles1 -> In b validFiles1 ->
               localeCompare (url a) (url b) = 0 -> a = b) ->
  exists validFiles2,
    validateLoop urlProtocol entries2 [] = inr validFiles2
    /\ Permutation validFiles1 validFiles2
    /\ requestCacheKey localeCompare validFiles1
       = requestCacheKey localeCompare validFiles2.
Proof.
  intros Hcmp Hperm Hv Hties.
  apply validateLoop_inr in Hv as (pushed & -> & Hall). simpl in *.
  destruct (validated_permutation _ _ Hperm _ Hall) as (vs2 & Hall2 & Hperm2).
  exists vs2. split; [|split].
  - rewrite (validateLoop_complete _ [] _ Hall2). reflexivity.
  - exact Hperm2.
  - unfold requestCacheKey.
    rewrite (arraySort_permutation_invariant
               (fun a b => localeCompare (url a) (url b))) with (l2 := vs2);
      [reflexivity| |exact Hperm2|exact Hties].
    destruct Hcmp as [Hrefl Hanti Htrans]. constructor; intros; eauto.
Qed.

End CacheKey.

(* ===================================================================== *)
(** ** Concrete requests                                                  *)
(* ===================================================================== *)

(** C1, a counterexample.  Two entries with one url and two filenames, in
    the two orders: both requests are valid, the stable sort leaves each as
    it came, and the keys differ. *)
Lemma cache_key_differs_for_reordered_ties :
  Permutation Cases.sameUrl (rev Cases.sameUrl)
  /\ validateLoop Sample.schemeProtocol Cases.sameUrl []
     = inr [mkValidFile Sample.essentials "a.jar";
            mkValidFile Sample.essentials "b.jar"]
  /\ validateLoop Sample.schemeProtocol (rev Cases.sameUrl) []
     = inr [mkValidFile Sample.essentials "b.jar";
            mkValidFile Sample.essentials "a.jar"]
  /\ requestCacheKey Sample.codeUnitCompare
       [mkValidFile Sample.essentials "a.jar"; mkValidFile Sample.essentials "b.jar"]
     = "e305aed5b98f6844f7736b61327be8d5cac6fe9349671f55417a53e13b19ccc9"
  /\ requestCacheKey Sample.codeUnitCompare
       [mkValidFile Sample.essentials "b.jar"; mkValidFile Sample.essentials "a.jar"]
     = "71daff18448544b94976bc46f40d5d1f07bf72017c6dd79e1b16cbf15e394f45"
  /\ requestCacheKey Sample.codeUnitCompare
       [mkValidFile Sample.essentials "a.jar"; mkValidFile Sample.essentials "b.jar"]
     <> requestCacheKey Sample.codeUnitCompare
          [mkValidFile Sample.essentials "b.jar"; mkValidFile Sample.essentials "a.jar"].
Proof.
  split; [apply Permutation_rev|].
  repeat split; vm_compute; try reflexivity. discriminate.
Qed.

(** The same for every collator: a string compares equal to itself. *)
Lemma cache_key_keeps_order_of_ties localeCompare :
  localeCompare Sample.essentials Sample.essentials = 0 ->
  requestCacheKey localeCompare
    [mkValidFile Sample.essentials "a.jar"; mkValidFile Sample.essentials "b.jar"]
  <> requestCacheKey localeCompare
       [mkValidFile Sample.essentials "b.jar"; mkValidFile Sample.essentials "a.jar"].
Proof.
  intros Hrefl. unfold requestCacheKey, arraySort. simpl fold_right.
  cbn [url]. rewrite Hrefl. simpl Z.leb. cbv iota.
  vm_compute. discriminate.
Qed.

(** C1, a witness: two entries with different urls, in the two orders. *)
Lemma cache_key_ignores_request_order_witness :
  exists validFiles2,
    validateLoop Sample.schemeProtocol
      [Sample.entry Cases.addons "b"; Sample.entry Sample.essentials "a"] []
    = inr validFiles2
    /\ Permutation [mkValidFile Sample.essentials "a.jar";
                    mkValidFile Cases.addons "b.jar"] validFiles2
    /\ requestCacheKey Sample.codeUnitCompare
         [mkValidFile Sample.essentials "a.jar"; mkValidFile Cases.addons "b.jar"]
       = requestCacheKey Sample.codeUnitCompare validFiles2.
Proof.
  apply (cache_key_ignores_request_order Sample.codeUnitCompare
           Sample.schemeProtocol
           [Sample.entry Sample.essentials "a"; Sample.entry Cases.addons "b"]).
  - exact codeUnitCompare_consistent.
  - apply perm_swap.
  - vm_compute. reflexivity.
  - intros a b [<-|[<-|[]]] [<-|[<-|[]]]; vm_compute; intros H;
      first [reflexivity | discriminate H].
Defined.

(** C2, a counterexample.  The one download is rejected by the network:
    the aggregate message holds the runtime's reason and not the url. *)
Lemma aggregate_error_may_omit_url :
  fst (createZipFromFiles Sample.rejectDuplicate Sample.storeEntries
         [mkValidFile Sample.essentials "a.jar"]
         (Sample.world Cases.unreachable Sample.noFault))
  = Threw (mkError "Failed to download some files: Network connection lost.")
  /\ JsString.includes "Failed to download some files: Network connection lost."
       Sample.essentials = false.
Proof. split; vm_compute; reflexivity. Qed.

(** C4, a witness: two files, both served. *)
Lemma archive_members_follow_request_order_witness :
  createZipFromFiles Sample.rejectDuplicate Sample.storeEntries
    [mkValidFile Sample.essentials "a.jar"; mkValidFile Cases.addons "b.jar"]
    (Sample.world Sample.serveAll Sample.noFault)
  = (Returned
       (Sample.storeEntries
          [mkDownloaded "a.jar" [x50; x4b; x03]; mkDownloaded "b.jar" [x50; x4b; x03]]),
     setZipWriter
       [mkDownloaded "a.jar" [x50; x4b; x03]; mkDownloaded "b.jar" [x50; x4b; x03]]
       (emitAll [EvFetch Sample.essentials; EvFetch Cases.addons;
                 EvZipAdd "a.jar"; EvZipAdd "b.jar"; EvZipClose]
                (Sample.world Sample.serveAll Sample.noFault)))
  /\ map dl_filename
       [mkDownloaded "a.jar" [x50; x4b; x03]; mkDownloaded "b.jar" [x50; x4b; x03]]
     = map requestedName
         [Sample.entry Sample.essentials "a"; Sample.entry Cases.addons "b"].
Proof.
  destruct (archive_members_follow_request_order
              Sample.rejectDuplicate Sample.storeEntries Sample.schemeProtocol
              [Sample.entry Sample.essentials "a"; Sample.entry Cases.addons "b"]
              [mkValidFile Sample.essentials "a.jar"; mkValidFile Cases.addons "b.jar"]
              [mkDownloaded "a.jar" [x50; x4b; x03];
               mkDownloaded "b.jar" [x50; x4b; x03]]
              (Sample.world Sample.serveAll Sample.noFault))
    as (Hzip & Hnames & _).
  - vm_compute. reflexivity.
  - vm_compute. reflexivity.
  - vm_compute. reflexivity.
  - split; [exact Hzip|exact Hnames].
Defined.

(** C5, a witness: the second entry is from another site. *)
Lemma disallowed_source_rejected_before_fetch_witness :
  exists response w',
    Sample.worker
      (Sample.post [Sample.entry Sample.essentials "a";
                    Sample.entry Cases.elsewhere "c"])
      (Sample.world Sample.serveAll Sample.noFault)
    = (Returned response, w')
    /\ status response = 400
    /\ trace w' = trace (Sample.world Sample.serveAll Sample.noFault)
    /\ fetchCount w' = fetchCount (Sample.world Sample.serveAll Sample.noFault).
Proof.
  apply (disallowed_source_rejected_before_fetch
           Sample.codeUnitCompare Sample.schemeProtocol
           Sample.rejectDuplicate Sample.storeEntries
           [Sample.entry Sample.essentials "a"; Sample.entry Cases.elsewhere "c"]
           None (Sample.world Sample.serveAll Sample.noFault)).
  vm_compute. reflexivity.
Defined.

(** C8, a counterexample: a POST whose body is not JSON gets a 500. *)
Lemma malformed_body_is_not_400 :
  exists response,
    fst (Sample.worker (mkRequest "POST" (JsonRejects "Unexpected end of JSON input"))
           (Sample.world Sample.serveAll Sample.noFault))
    = Returned response
    /\ status response = 500
    /\ status response <> 400
    /\ body response = BodyText "Internal Server Error: Unexpected end of JSON input".
Proof. eexists. repeat split. discriminate. Qed.

(** The other bodies that end in the catch-all: the body [null], and an
    array whose second entry is [null]; and the 400 of an array whose
    first entry is refused ahead of a [null]. *)
Example null_body_and_null_entry :
  fst (Sample.worker (mkRequest "POST" JsonNull)
         (Sample.world Sample.serveAll Sample.noFault))
  = Returned
      (mkResponse 500
         [allowOrigin; ("content-type", "text/plain;charset=UTF-8")]
         (BodyText ("Internal Server Error: "
                    +:+ "Cannot read properties of null (reading 'files')")))
  /\ fst (Sample.worker
            (mkRequest "POST"
               (JsonDocument
                  (mkJarRequest
                     (FilesArrayWithNull [Sample.entry Sample.essentials "a"]) None)))
            (Sample.world Sample.serveAll Sample.noFault))
     = Returned
         (mkResponse 500
            [allowOrigin; ("content-type", "text/plain;charset=UTF-8")]
            (BodyText ("Internal Server Error: "
                       +:+ "Cannot read properties of null (reading 'url')")))
  /\ fst (Sample.worker
            (mkRequest "POST"
               (JsonDocument
                  (mkJarRequest
                     (FilesArrayWithNull [Sample.entry Cases.elsewhere "c"]) None)))
            (Sample.world Sample.serveAll Sample.noFault))
     = Returned
         (mkResponse 400
            [allowOrigin; ("content-type", "text/plain;charset=UTF-8")]
            (BodyText ("URL must start with one of the allowed EssentialsX sources: "
                       +:+ "https://github.com/EssentialsX/Essentials/, "
                       +:+ "https://ci.ender.zone/job/EssentialsX/. "
                       +:+ "Got: https://example.com/downloads/c.jar"))).
Proof. repeat split. Qed.

(** The four reasons for which an entry is refused, on requests of one
    entry: no filename, a url that does not parse, a protocol that is not
    allowed, and a source that is not allowed. *)
Example refused_entries :
  map (fun file =>
         fst (Sample.worker (Sample.post [file])
                (Sample.world Sample.serveAll Sample.noFault)))
    [ mkRawFile (Some Sample.essentials) None;
      Sample.entry "github.com/EssentialsX/Essentials/a.jar" "a";
      Sample.entry "ftp://github.com/EssentialsX/Essentials/a.jar" "a";
      Sample.entry Cases.elsewhere "c" ]
  = map (fun reason => Returned (badRequest reason))
      [ "Each file must have both url and filename properties";
        "Invalid URL format: github.com/EssentialsX/Essentials/a.jar";
        "Invalid URL protocol: ftp://github.com/EssentialsX/Essentials/a.jar";
        "URL must start with one of the allowed EssentialsX sources: "
        +:+ "https://github.com/EssentialsX/Essentials/, "
        +:+ "https://ci.ender.zone/job/EssentialsX/. "
        +:+ "Got: https://example.com/downloads/c.jar" ].
Proof. vm_compute. reflexivity. Qed.

(** C10, a witness. *)
Lemma no_valid_files_branch_unreachable_witness :
  fst (handlePostRequest Sample.codeUnitCompare Sample.schemeProtocol
         Sample.rejectDuplicate Sample.storeEntries
         (Sample.post [Sample.entry Sample.essentials "a"])
         (Sample.world Sample.serveAll Sample.noFault))
  <> Returned (badRequest "No valid files provided").
Proof.
  refine (proj2 (proj2 (no_valid_files_branch_unreachable
           Sample.codeUnitCompare Sample.schemeProtocol
           Sample.rejectDuplicate Sample.storeEntries
           "POST" [Sample.entry Sample.essentials "a"] None
           (Sample.world Sample.serveAll Sample.noFault) _))).
  discriminate.
Defined.

(* ===================================================================== *)
(** ** Keys of different file sets                                        *)
(* ===================================================================== *)

(** C3 at the failing input.  The separator between url and filename is
    also the separator between entries and may occur in both, so two valid
    requests for different files, here one file each, have the same
    string before the hash and so the same key, whatever the collator. *)
Theorem distinct_file_sets_share_a_cache_key localeCompare :
  let one := [mkValidFile Sample.essentials "x|y.jar"] in
  let other := [mkValidFile (Sample.essentials +:+ "|x") "y.jar"] in
  ~ Permutation one other
  /\ validateLoop Sample.schemeProtocol
       [Sample.entry Sample.essentials "x|y.jar"] [] = inr one
  /\ validateLoop Sample.schemeProtocol
       [Sample.entry (Sample.essentials +:+ "|x") "y.jar"] [] = inr other
  /\ requestCacheKey localeCompare one = requestCacheKey localeCompare other.
Proof.
  cbv zeta. split; [|split; [|split]].
  - intros Hperm. apply Permutation_length_1 in Hperm.
    vm_compute in Hperm. discriminate Hperm.
  - vm_compute. reflexivity.
  - vm_compute. reflexivity.
  - reflexivity.
Qed.

(** The same between a request for two files and a request for one file
    whose filename spells out the rest of the key. *)
Example bundle_key_collides_with_single_file :
  requestCacheKey Sample.codeUnitCompare
    [mkValidFile Sample.essentials "a.jar"; mkValidFile Cases.addons "b.jar"]
  = requestCacheKey Sample.codeUnitCompare
      [mkValidFile Cases.addons
         ("b.jar|" +:+ Sample.essentials +:+ "|a.jar")].
Proof. vm_compute. reflexivity. Qed.

(* ===================================================================== *)
(** ** The cross-origin header                                            *)
(* ===================================================================== *)

Section CrossOrigin.

Variable localeCompare : string -> string -> Z.
Variable urlProtocol : string -> option string.
Variable zipAddRejects : list DownloadedFile -> DownloadedFile -> option string.
Variable zipEncode : list DownloadedFile -> bytes.

Let handlePost := handlePostRequest localeCompare urlProtocol zipAddRejects zipEncode.
Let handle := fetch localeCompare urlProtocol zipAddRejects zipEncode.

Lemma badRequest_allowsAnyOrigin reason : allowsAnyOrigin (badRequest reason).
Proof. reflexivity. Qed.

Lemma createZipResponse_allowsAnyOrigin data etag name :
  allowsAnyOrigin (createZipResponse data etag name).
Proof. reflexivity. Qed.

Lemma handlePostRequest_allowsAnyOrigin request w response :
  fst (handlePost request w) = Returned response -> allowsAnyOrigin response.
Proof.
  destruct request as [verb [reason| |[fs name]]]; [discriminate|discriminate|].
  destruct fs as [| |entries|ahead].
  - intros H. injection H as <-. apply badRequest_allowsAnyOrigin.
  - intros H. injection H as <-. apply badRequest_allowsAnyOrigin.
  - destruct entries as [|e es] eqn:He.
    { intros H. injection H as <-. apply badRequest_allowsAnyOrigin. }
    rewrite <- He. assert (Hne : entries <> []) by (subst; discriminate).
    destruct (validateLoop urlProtocol entries []) as [r|validFiles] eqn:Hv.
    + unfold handlePost. rewrite (handlePostRequest_invalid _ _ _ _ _ _ _ _ _ Hne Hv).
      intros H. injection H as <-.
      apply validateLoop_inl in Hv as [reason ->]. apply badRequest_allowsAnyOrigin.
    + unfold handlePost. rewrite (handlePostRequest_valid _ _ _ _ _ _ _ _ _ Hne Hv).
      unfold bundleResult. destruct (lookupResult _ w).
      * intros H. injection H as <-. apply createZipResponse_allowsAnyOrigin.
      * destruct (fst (createZipFromFiles _ _ _ w)); [|discriminate].
        intros H. injection H as <-. apply createZipResponse_allowsAnyOrigin.
  - unfold handlePost. rewrite handlePostRequest_null_entry.
    destruct (validateLoop urlProtocol ahead []) as [r|validFiles] eqn:Hv;
      [|discriminate].
    intros H. injection H as <-.
    apply validateLoop_inl in Hv as [reason ->]. apply badRequest_allowsAnyOrigin.
Qed.

(** The handler always answers, and every answer but the 405 carries the
    cross-origin header. *)
Theorem responses_allow_any_origin_except_405 request w :
  exists response,
    fst (handle request w) = Returned response
    /\ (status response <> 405 -> allowsAnyOrigin response)
    /\ (status response = 405 -> response = methodNotAllowed).
Proof.
  unfold handle. rewrite fetch_result. eexists. split; [reflexivity|].
  destruct (String.eqb (method request) "OPTIONS").
  { split; [reflexivity|discriminate]. }
  destruct (String.eqb (method request) "POST");
    [|split; [intros H; exfalso; apply H; reflexivity|reflexivity]].
  destruct (fst (handlePostRequest _ _ _ _ request w)) as [response|error] eqn:Hp.
  - pose proof (handlePostRequest_allowsAnyOrigin request w response Hp) as Hcors.
    split; [auto|]. intros H405. exfalso.
    clear Hcors. revert Hp H405. fold handlePost.
    destruct request as [verb [reason| |[fs name]]]; [discriminate|discriminate|].
    destruct fs as [| |entries|ahead];
      try (intros H; injection H as <-; discriminate).
    2:{ unfold handlePost. rewrite handlePostRequest_null_entry.
        destruct (validateLoop urlProtocol ahead []) as [r|validFiles] eqn:Hv;
          [|discriminate].
        intros H. injection H as <-.
        apply validateLoop_inl in Hv as [reason ->]. discriminate. }
    destruct entries as [|e es] eqn:He;
      [intros H; injection H as <-; discriminate|].
    rewrite <- He. assert (Hne : entries <> []) by (subst; discriminate).
    destruct (validateLoop urlProtocol entries []) as [r|validFiles] eqn:Hv.
    + unfold handlePost. rewrite (handlePostRequest_invalid _ _ _ _ _ _ _ _ _ Hne Hv).
      intros H. injection H as <-.
      apply validateLoop_inl in Hv as [reason ->]. discriminate.
    + unfold handlePost. rewrite (handlePostRequest_valid _ _ _ _ _ _ _ _ _ Hne Hv).
      unfold bundleResult. destruct (lookupResult _ w).
      * intros H. injection H as <-. discriminate.
      * destruct (fst (createZipFromFiles _ _ _ w)); [|discriminate].
        intros H. injection H as <-. discriminate.
  - split; [reflexivity|discriminate].
Qed.

End CrossOrigin.

(* ===================================================================== *)
(** ** The string before the hash, when no field holds the separator      *)
(* ===================================================================== *)

Lemma requestCacheKey_keyMaterial localeCompare validFiles :
  requestCacheKey localeCompare validFiles
  = hexOfBytes (Sha256.digest (keyMaterial localeCompare validFiles)).
Proof. reflexivity. Qed.

Lemma decodeUnit_utf8Unit c rest :
  decodeUnit (utf8Unit c ++ rest) = Some (c, rest).
Proof. destruct c as [[] [] [] [] [] [] [] []]; reflexivity. Qed.

Lemma utf8Unit_nonempty c rest : utf8Unit c ++ rest <> [].
Proof.
  intros H. pose proof (decodeUnit_utf8Unit c rest) as Hd. rewrite H in Hd.
  discriminate.
Qed.

Lemma textEncode_injective s1 : forall s2,
  textEncode s1 = textEncode s2 -> s1 = s2.
Proof.
  induction s1 as [|c1 s1 IH]; intros [|c2 s2] H; simpl in H.
  - reflexivity.
  - symmetry in H. apply utf8Unit_nonempty in H. destruct H.
  - apply utf8Unit_nonempty in H. destruct H.
  - assert (Hd : Some (c1, textEncode s1) = Some (c2, textEncode s2)).
    { rewrite <- !decodeUnit_utf8Unit, H. reflexivity. }
    injection Hd as -> Hrest. f_equal. apply IH. exact Hrest.
Qed.

Lemma append_assoc a b c : (a +:+ b) +:+ c = a +:+ (b +:+ c).
Proof.
  induction a as [|x a IH]; [reflexivity|].
  rewrite !append_cons, IH. reflexivity.
Qed.

Lemma join_cons sep p q rest :
  JsString.join sep (p :: q :: rest) = p +:+ sep +:+ JsString.join sep (q :: rest).
Proof. reflexivity. Qed.

Lemma join_fields validFiles :
  JsString.join "|" (map (fun f => url f +:+ "|" +:+ filename f) validFiles)
  = JsString.join "|" (fields validFiles).
Proof.
  induction validFiles as [|f [|g rest] IH]; [reflexivity|reflexivity|].
  change (map _ (f :: g :: rest))
    with ((url f +:+ "|" +:+ filename f)
          :: map (fun f => url f +:+ "|" +:+ filename f) (g :: rest)).
  change (map _ (g :: rest))
    with ((url g +:+ "|" +:+ filename g)
          :: map (fun f => url f +:+ "|" +:+ filename f) rest) in *.
  rewrite join_cons, IH.
  change (fields (f :: g :: rest))
    with (url f :: filename f :: url g :: filename g :: fields rest).
  change (fields (g :: rest)) with (url g :: filename g :: fields rest).
  rewrite !join_cons, !append_assoc. reflexivity.
Qed.

(** A bar-free string followed by nothing or by a bar can be read back. *)
Lemma barFree_prefix a : forall b x y,
  barFree a = true -> barFree b = true ->
  (x = EmptyString \/ exists x', x = "|" +:+ x') ->
  (y = EmptyString \/ exists y', y = "|" +:+ y') ->
  a +:+ x = b +:+ y -> a = b /\ x = y.
Proof.
  induction a as [|c a IH]; intros [|d b] x y Ha Hb Hx Hy H.
  - auto.
  - rewrite append_empty, append_cons in H. simpl in Hb.
    apply andb_prop in Hb as [Hd _].
    destruct Hx as [->|[x' ->]]; [discriminate|].
    rewrite append_cons in H. injection H as <- _. discriminate.
  - rewrite append_empty, append_cons in H. simpl in Ha.
    apply andb_prop in Ha as [Hc _].
    destruct Hy as [->|[y' ->]]; [discriminate|].
    rewrite append_cons in H. injection H as -> _. discriminate.
  - rewrite !append_cons in H. injection H as -> H. simpl in Ha, Hb.
    apply andb_prop in Ha as [_ Ha]. apply andb_prop in Hb as [_ Hb].
    destruct (IH b x y Ha Hb Hx Hy H) as [-> ->]. auto.
Qed.

Lemma join_tail sep p rest :
  JsString.join sep (p :: rest)
  = p +:+ match rest with [] => EmptyString | _ => sep +:+ JsString.join sep rest end.
Proof.
  destruct rest; [|reflexivity]. simpl.
  induction p as [|c p IH]; [reflexivity|]. rewrite append_cons, <- IH. reflexivity.
Qed.

Lemma join_injective ts : forall us,
  ts <> [] -> us <> [] ->
  Forall (fun t => barFree t = true) ts ->
  Forall (fun t => barFree t = true) us ->
  JsString.join "|" ts = JsString.join "|" us -> ts = us.
Proof.
  induction ts as [|t ts IH]; intros [|u us] Hts Hus Ft Fu H; try congruence.
  inversion Ft as [|? ? Ht Fts]; inversion Fu as [|? ? Hu Fus]; subst.
  rewrite !join_tail in H.
  apply barFree_prefix in H as [-> Hrest]; auto.
  - f_equal. destruct ts as [|t' ts]; destruct us as [|u' us];
      try reflexivity; try discriminate Hrest.
    apply IH; try congruence; auto.
    change ("|" +:+ ?a = "|" +:+ ?b) with (String "|" a = String "|" b) in Hrest.
    injection Hrest as Hrest. exact Hrest.
  - destruct ts; [left; reflexivity|right; eauto].
  - destruct us; [left; reflexivity|right; eauto].
Qed.

Lemma fields_injective l1 : forall l2, fields l1 = fields l2 -> l1 = l2.
Proof.
  induction l1 as [|[u1 n1] l1 IH]; intros [|[u2 n2] l2] H;
    try reflexivity; try discriminate H.
  simpl in H. injection H as -> -> H. f_equal. apply IH. exact H.
Qed.

Lemma fields_barFree l :
  barFreeFiles l = true -> Forall (fun t => barFree t = true) (fields l).
Proof.
  induction l as [|f l IH]; simpl; intros H; [constructor|].
  apply andb_prop in H as [Hf Hl]. apply andb_prop in Hf as [Hu Hn].
  repeat constructor; auto.
Qed.

Lemma barFreeFiles_permutation l1 l2 :
  Permutation l1 l2 -> barFreeFiles l1 = true -> barFreeFiles l2 = true.
Proof.
  unfold barFreeFiles. intros Hperm H. apply forallb_forall. intros f Hin.
  rewrite forallb_forall in H. apply H.
  eapply Permutation_in; [symmetry; exact Hperm|exact Hin].
Qed.

(** On urls and filenames whose code units are below 256, which are the
    strings of the model: when no url and no filename holds a vertical
    bar, the bytes that are hashed determine the sorted list of entries,
    and so the file set: two validated lists with the same bytes are the
    same up to their order.  (The encoder maps two strings that differ in
    a lone surrogate to the same bytes, so this does not hold of all
    strings.) *)
Theorem key_material_determines_bar_free_set localeCompare l1 l2 :
  l1 <> [] -> l2 <> [] ->
  barFreeFiles l1 = true -> barFreeFiles l2 = true ->
  keyMaterial localeCompare l1 = keyMaterial localeCompare l2 ->
  arraySort (fun a b => localeCompare (url a) (url b)) l1
  = arraySort (fun a b => localeCompare (url a) (url b)) l2
  /\ Permutation l1 l2
  /\ requestCacheKey localeCompare l1
     = hexOfBytes (Sha256.digest (keyMaterial localeCompare l1)).
Proof.
  intros Hne1 Hne2 Hb1 Hb2 H. unfold keyMaterial in H.
  apply textEncode_injective in H. rewrite !join_fields in H.
  set (compare := fun a b : ValidFile => localeCompare (url a) (url b)) in *.
  pose proof (arraySort_permutation compare l1) as Hp1.
  pose proof (arraySort_permutation compare l2) as Hp2.
  assert (Hs : arraySort compare l1 = arraySort compare l2).
  { apply fields_injective. apply join_injective; auto.
    - intros E. destruct (arraySort compare l1); [|discriminate].
      symmetry in Hp1. apply Permutation_nil in Hp1. auto.
    - intros E. destruct (arraySort compare l2); [|discriminate].
      symmetry in Hp2. apply Permutation_nil in Hp2. auto.
    - apply fields_barFree. eapply barFreeFiles_permutation; eauto.
    - apply fields_barFree. eapply barFreeFiles_permutation; eauto. }
  split; [exact Hs|]. split; [|reflexivity].
  rewrite Hp1, Hs. symmetry. exact Hp2.
Qed.

Lemma key_material_determines_bar_free_set_witness :
  arraySort (fun a b => Sample.codeUnitCompare (url a) (url b))
    [mkValidFile Sample.essentials "a.jar"; mkValidFile Cases.addons "b.jar"]
  = arraySort (fun a b => Sample.codeUnitCompare (url a) (url b))
      [mkValidFile Cases.addons "b.jar"; mkValidFile Sample.essentials "a.jar"]
  /\ Permutation
       [mkValidFile Sample.essentials "a.jar"; mkValidFile Cases.addons "b.jar"]
       [mkValidFile Cases.addons "b.jar"; mkValidFile Sample.essentials "a.jar"].
Proof.
  destruct (key_material_determines_bar_free_set Sample.codeUnitCompare
              [mkValidFile Sample.essentials "a.jar"; mkValidFile Cases.addons "b.jar"]
              [mkValidFile Cases.addons "b.jar"; mkValidFile Sample.essentials "a.jar"])
    as (Hsorted & Hperm & _);
    first [discriminate | vm_compute; reflexivity | split; assumption].
Defined.

(* ===================================================================== *)
(** ** Numbers as strings, and back                                     *)
(* ===================================================================== *)

Lemma parseDigits_step c s a k :
  digitValue c = Some k -> (k <? 10) = true ->
  parseDigits 10 (String c s) a
  = parseDigits 10 s (Some (match a with Some v => v * 10 + k | None => k end)).
Proof. intros Hc Hk. simpl. rewrite Hc, Hk. reflexivity. Qed.

Lemma parseDigits_acc d : forall p,
  parseDigits 10 (NilEmpty.string_of_uint d) (Some (Z.pos p))
  = Some (Z.pos (Pos.of_uint_acc d p)).
Proof.
  induction d; intros p; cbn [NilEmpty.string_of_uint Pos.of_uint_acc];
    [reflexivity|..];
    (erewrite parseDigits_step by reflexivity);
    rewrite <- IHd; do 2 f_equal; simpl N_of_ascii; lia.
Qed.

Lemma parseDigits_uint d : forall acc,
  acc = None \/ acc = Some 0 ->
  parseDigits 10 (NilEmpty.string_of_uint d) acc
  = match d with
    | Decimal.Nil => acc
    | _ => Some (Z.of_N (Pos.of_uint d))
    end.
Proof.
  induction d; intros acc Hacc; cbn [NilEmpty.string_of_uint Pos.of_uint];
    [reflexivity|..];
    (erewrite parseDigits_step by reflexivity);
    try (destruct Hacc as [->| ->]; apply parseDigits_acc).
  rewrite IHd by (destruct Hacc as [->| ->]; auto).
  destruct d; try reflexivity. destruct Hacc as [->| ->]; reflexivity.
Qed.

Lemma parseInt_digits d :
  d <> Decimal.Nil ->
  parseInt (NilEmpty.string_of_uint d) = Some (Z.of_N (Pos.of_uint d)).
Proof.
  intros Hd.
  assert (H : parseInt (NilEmpty.string_of_uint d)
              = option_map (Z.mul 1) (parseDigits 10 (NilEmpty.string_of_uint d) None)).
  { destruct d as [|d|d|d|d|d|d|d|d|d|d]; try reflexivity; destruct d; reflexivity. }
  rewrite H, parseDigits_uint by auto.
  destruct d; [congruence|..]; cbn [option_map]; f_equal; apply Z.mul_1_l.
Qed.

Lemma parseInt_ofNumber n : 0 <= n -> parseInt (JsString.ofNumber n) = Some n.
Proof.
  intros Hn. unfold JsString.ofNumber.
  rewrite parseInt_digits.
  - change (Pos.of_uint (N.to_uint (Z.to_N n))) with (N.of_uint (N.to_uint (Z.to_N n))).
    rewrite DecimalN.Unsigned.of_to. f_equal. lia.
  - destruct (Z.to_N n); [discriminate|]. apply DecimalPos.Unsigned.to_uint_nonnil.
Qed.

Lemma ofNumber_truthy n : JsString.truthy (JsString.ofNumber n) = true.
Proof.
  unfold JsString.ofNumber.
  destruct (N.to_uint (Z.to_N n)) eqn:E; try reflexivity.
  exfalso. destruct (Z.to_N n); [discriminate|].
  exact (DecimalPos.Unsigned.to_uint_nonnil _ E).
Qed.

(* ===================================================================== *)
(** ** What a run changes of the world                                  *)
(* ===================================================================== *)

Lemma fetchedUrls_app es1 es2 :
  fetchedUrls (es1 ++ es2) = fetchedUrls es1 ++ fetchedUrls es2.
Proof.
  induction es1 as [|e es1 IH]; [reflexivity|].
  destruct e; simpl; rewrite IH; reflexivity.
Qed.

Lemma fetchedUrls_quiet es : quiet es = true -> fetchedUrls es = [].
Proof.
  unfold quiet. induction es as [|e es IH]; intros H; [reflexivity|].
  simpl in H. apply andb_prop in H as [He Hes].
  destruct e; try discriminate He; simpl; auto.
Qed.

Lemma fetchedUrls_fetches (validFiles : list ValidFile) :
  fetchedUrls (map (fun f => EvFetch (url f)) validFiles) = map url validFiles.
Proof. induction validFiles; simpl; [reflexivity|]. f_equal. assumption. Qed.

Lemma advances_refl w : advances [] w w.
Proof.
  repeat split. exists []. split; [symmetry; apply app_nil_r|reflexivity].
Qed.

Lemma advancesTo_trans urls1 urls2 store w1 w2 w3 :
  advances urls1 w1 w2 -> advancesTo urls2 store w2 w3 ->
  advancesTo (urls1 ++ urls2) store w1 w3.
Proof.
  intros (Ho1 & Hf1 & Hn1 & Hs1 & es1 & Ht1 & Hu1)
         (Ho2 & Hf2 & Hn2 & Hs2 & es2 & Ht2 & Hu2).
  repeat split; try congruence.
  exists (es1 ++ es2). rewrite fetchedUrls_app, Hu1, Hu2, Ht2, Ht1, app_assoc.
  auto.
Qed.

Lemma advances_trans urls1 urls2 w1 w2 w3 :
  advances urls1 w1 w2 -> advances urls2 w2 w3 -> advances (urls1 ++ urls2) w1 w3.
Proof.
  intros H1 H2. unfold advances.
  replace (cacheStore w1) with (cacheStore w2).
  - eapply advancesTo_trans; eauto.
  - destruct H1 as (_ & _ & _ & Hs & _). exact Hs.
Qed.

Lemma advances_emitAll es w : advances (fetchedUrls es) w (emitAll es w).
Proof. repeat split. exists es. auto. Qed.

Lemma advances_emit_quiet e w : isFetch e = false -> advances [] w (emit e w).
Proof.
  intros He. repeat split. exists [e]. split; [reflexivity|].
  destruct e; try discriminate He; reflexivity.
Qed.

Lemma advances_setZipWriter z w : advances [] w (setZipWriter z w).
Proof. repeat split. exists []. split; [symmetry; apply app_nil_r|reflexivity]. Qed.

Lemma advances_fetchCount urls w w' :
  advances urls w w' -> fetchCount w' = (fetchCount w + List.length urls)%nat.
Proof.
  intros (_ & _ & _ & _ & es & Ht & Hu). unfold fetchCount.
  rewrite Ht, List.filter_app, List.length_app. f_equal. subst urls.
  clear. induction es as [|e es IH]; [reflexivity|]. destruct e; simpl; auto.
Qed.

Section Frames.

Variable zipAddRejects : list DownloadedFile -> DownloadedFile -> option string.
Variable zipEncode : list DownloadedFile -> bytes.

Lemma allSettled_zipWriterAdd_advances entries : forall w,
  advances [] w (snd (allSettled (map (zipWriterAdd zipAddRejects) entries) w)).
Proof.
  induction entries as [|file rest IH]; intros w; simpl.
  - apply advances_refl.
  - unfold mbind, Async_bind, bind, settle, zipWriterAdd. unfold_async. simpl.
    destruct (zipAddRejects (zipWriter w) file) as [reason|].
    + specialize (IH (emit (EvZipAdd (dl_filename file)) w)).
      destruct (allSettled _ (emit _ w)) as [[rs|e] w1]; simpl in *;
        (eapply (advances_trans [] []); [|exact IH]);
        apply advances_emit_quiet; reflexivity.
    + specialize (IH (setZipWriter (zipWriter w ++ [file])
                        (emit (EvZipAdd (dl_filename file)) w))).
      destruct (allSettled _ (setZipWriter _ (emit _ w))) as [[rs|e] w1]; simpl in *;
        (eapply (advances_trans [] []); [|exact IH]);
        (eapply (advances_trans [] []); [|apply advances_setZipWriter]);
        apply advances_emit_quiet; reflexivity.
Qed.

Lemma createZip_advances downloaded w :
  advances [] w (snd (createZip zipAddRejects zipEncode downloaded w)).
Proof.
  unfold createZip, promiseAll.
  pose proof (allSettled_zipWriterAdd_advances downloaded (setZipWriter [] w)) as Hall.
  unfold_async. simpl.
  destruct (allSettled _ (setZipWriter [] w)) as [[rs|e] w1]; simpl in *.
  - assert (H0 : advances [] w w1).
    { eapply (advances_trans [] []); [|exact Hall]. apply advances_setZipWriter. }
    destruct (firstRejection rs); simpl; [exact H0|].
    eapply (advances_trans [] []); [exact H0|].
    apply advances_emit_quiet. reflexivity.
  - eapply (advances_trans [] []); [|exact Hall]. apply advances_setZipWriter.
Qed.

Lemma createZipFromFiles_advances validFiles w :
  advances (map url validFiles) w
    (snd (createZipFromFiles zipAddRejects zipEncode validFiles w)).
Proof.
  rewrite createZipFromFiles_unfold.
  pose proof (advances_emitAll (map (fun f => EvFetch (url f)) validFiles) w) as H1.
  rewrite fetchedUrls_fetches in H1.
  destruct (List.filter isRejected _); [|exact H1].
  rewrite <- (app_nil_r (map url validFiles)).
  eapply advances_trans; [exact H1|apply createZip_advances].
Qed.

End Frames.

Lemma cacheZip_run cacheKey data etag w :
  exists es,
    quiet es = true
    /\ cacheZip cacheKey data etag w
       = (Returned tt,
          setStore (if storeFails w then cacheStore w
                    else <[cacheRequestUrl cacheKey
                           := storedResponse data etag (now w)]> (cacheStore w))
                   (emitAll es w)).
Proof.
  unfold cacheZip, cachePut, cacheCall, storeFails, storedResponse.
  unfold_async. simpl.
  destruct (cacheFault w StoreOpen) as [reason|]; simpl.
  - exists [EvCache StoreOpen; EvError ("Error caching zip: " +:+ reason)].
    split; [reflexivity|]. f_equal. destruct w; world_eq.
  - destruct (cacheFault w StorePut) as [reason|]; simpl.
    + exists [EvCache StoreOpen; EvCache StorePut;
              EvError ("Error caching zip: " +:+ reason)].
      split; [reflexivity|]. f_equal. destruct w; world_eq.
    + exists [EvCache StoreOpen; EvCache StorePut;
              EvLog ("Cached ZIP with key: " +:+ cacheKey)].
      split; [reflexivity|]. f_equal. world_eq.
Qed.

(* ===================================================================== *)
(** ** The handler, run in a world                                      *)
(* ===================================================================== *)

Section HandlerRuns.

Variable localeCompare : string -> string -> Z.
Variable urlProtocol : string -> option string.
Variable zipAddRejects : list DownloadedFile -> DownloadedFile -> option string.
Variable zipEncode : list DownloadedFile -> bytes.

Let handlePost := handlePostRequest localeCompare urlProtocol zipAddRejects zipEncode.
Let handle := fetch localeCompare urlProtocol zipAddRejects zipEncode.

Lemma quiet_app es1 es2 : quiet es1 = true -> quiet es2 = true -> quiet (es1 ++ es2) = true.
Proof. unfold quiet. intros H1 H2. rewrite forallb_app, H1, H2. reflexivity. Qed.

Lemma advances_quiet es w : quiet es = true -> advances [] w (emitAll es w).
Proof.
  intros H. rewrite <- (fetchedUrls_quiet es H). apply advances_emitAll.
Qed.

(** [handlePostRequest] on a validated list, with the worlds. *)
Lemma handlePostRequest_run verb entries name validFiles w :
  entries <> [] ->
  validateLoop urlProtocol entries [] = inr validFiles ->
  exists es,
    quiet es = true
    /\ handlePost (mkRequest verb
          (JsonDocument (mkJarRequest (FilesArray entries) name))) w
       = match lookupResult (requestCacheKey localeCompare validFiles) w with
         | Some c =>
             (Returned (createZipResponse (cached_data c) (cached_etag c) name),
              emitAll es w)
         | None =>
             match createZipFromFiles zipAddRejects zipEncode validFiles
                     (emitAll es w) with
             | (Returned zipData, w2) =>
                 (Returned (createZipResponse zipData (generateETag zipData) name),
                  snd (cacheZip (requestCacheKey localeCompare validFiles)
                         zipData (generateETag zipData) w2))
             | (Threw e, w2) => (Threw e, w2)
             end
         end.
Proof.
  intros Hne Hv. unfold handlePost, handlePostRequest, requestJson, nonNull.
  pose proof (validateLoop_length _ _ _ Hv) as Hlen.
  destruct entries as [|e es]; [congruence|].
  destruct validFiles as [|v vs]; [discriminate|].
  destruct (getCachedZip_spec (requestCacheKey localeCompare (v :: vs)) w)
    as (es' & Hget & Hquiet).
  unfold_async. cbn [json files]. rewrite Hv.
  change (List.length (v :: vs) =? 0)%nat with false. cbv beta iota.
  rewrite Hget.
  destruct (lookupResult (requestCacheKey localeCompare (v :: vs)) w) as [c|].
  - exists (es' ++ [EvLog ("Returning cached ZIP for key: "
                           +:+ requestCacheKey localeCompare (v :: vs))]).
    split; [apply quiet_app; [exact Hquiet|reflexivity]|].
    cbn [zipFilename]. cbv beta iota. rewrite emitAll_emit_last. reflexivity.
  - exists (es' ++ [EvLog "Creating new ZIP for files:"]).
    split; [apply quiet_app; [exact Hquiet|reflexivity]|].
    cbn [zipFilename]. cbv beta iota. rewrite emitAll_emit_last.
    destruct (createZipFromFiles zipAddRejects zipEncode (v :: vs) _)
      as [[zipData|err] w2]; [|reflexivity].
    destruct (cacheZip _ zipData _ w2) as [o w3]. reflexivity.
Qed.

Lemma validatedFiles_some request validFiles :
  validatedFiles urlProtocol request = Some validFiles ->
  exists entries name,
    request = mkRequest "POST"
                (JsonDocument (mkJarRequest (FilesArray entries) name))
    /\ entries <> []
    /\ validateLoop urlProtocol entries [] = inr validFiles
    /\ requestedZipName request = name.
Proof.
  unfold validatedFiles, requestedZipName.
  destruct request as [verb [reason| |[fs name]]]; cbn [method json files zipFilename].
  - destruct (String.eqb_spec verb "POST"); discriminate.
  - destruct (String.eqb_spec verb "POST"); discriminate.
  - destruct (String.eqb_spec verb "POST") as [->|]; [|discriminate].
    destruct fs as [| |[|e es]|ahead]; try discriminate.
    destruct (validateLoop urlProtocol (e :: es) []) as [r|vs] eqn:Hv; [discriminate|].
    intros H. injection H as <-. exists (e :: es), name.
    repeat split; [discriminate|exact Hv].
Qed.

(** A POST that does not get as far as the cache ends in the handler
    without a change of the world: with a 400, or with an error. *)
Lemma handlePostRequest_unvalidated request w :
  method request = "POST" ->
  validatedFiles urlProtocol request = None ->
  (exists reason, handlePost request w = (Returned (badRequest reason), w))
  \/ (exists error, handlePost request w = (Threw error, w)).
Proof.
  unfold validatedFiles. intros Hpost Hnone. rewrite Hpost in Hnone.
  change ("POST" =? "POST")%string with true in Hnone. cbv iota in Hnone.
  destruct request as [verb [reason| |[fs name]]]; cbn [method json files] in *.
  - right. eexists. reflexivity.
  - right. eexists. reflexivity.
  - destruct fs as [| |[|e es]|ahead]; try (left; eexists; reflexivity).
    + destruct (validateLoop urlProtocol (e :: es) []) as [r|vs] eqn:Hv;
        [|discriminate].
      pose proof Hv as Hv'. apply validateLoop_inl in Hv' as [reason ->].
      left. exists reason. apply handlePostRequest_invalid; [discriminate|exact Hv].
    + unfold handlePost. rewrite handlePostRequest_null_entry.
      destruct (validateLoop urlProtocol ahead []) as [r|vs] eqn:Hv.
      * apply validateLoop_inl in Hv as [reason ->]. left. eauto.
      * right. eauto.
Qed.

(** A request that does not get as far as the cache is answered without a
    fetch and without a change of the cache, and not with an archive. *)
Lemma fetch_unvalidated request w :
  validatedFiles urlProtocol request = None ->
  exists response,
    fst (handle request w) = Returned response
    /\ advances [] w (snd (handle request w))
    /\ (forall data, body response <> BodyData data)
    /\ (method request = "POST" -> status response <> 200).
Proof.
  intros Hnone. unfold handle, fetch.
  destruct (String.eqb_spec (method request) "OPTIONS") as [Hopt|Hopt].
  { eexists. split; [reflexivity|]. split; [apply advances_refl|].
    split; [discriminate|]. congruence. }
  destruct (String.eqb_spec (method request) "POST") as [Hpost|Hpost].
  2:{ eexists. split; [reflexivity|]. split; [apply advances_refl|].
      split; [discriminate|]. congruence. }
  unfold tryCatch. fold handlePost.
  destruct (handlePostRequest_unvalidated request w Hpost Hnone)
    as [[reason Hrun]|[error Hrun]]; rewrite Hrun.
  - exists (badRequest reason).
    split; [reflexivity|]. split; [apply advances_refl|]. split; discriminate.
  - eexists. unfold_async. split; [reflexivity|]. split.
    + apply advances_emit_quiet. reflexivity.
    + split; discriminate.
Qed.

(** A request that gets as far as the cache: a hit, a miss that fails, or
    a miss that makes the archive and stores it. *)
Lemma fetch_validated request validFiles w :
  validatedFiles urlProtocol request = Some validFiles ->
  let key := requestCacheKey localeCompare validFiles in
  let name := requestedZipName request in
  let w' := snd (handle request w) in
  match lookupResult key w with
  | Some c =>
      fst (handle request w)
      = Returned (createZipResponse (cached_data c) (cached_etag c) name)
      /\ advances [] w w'
  | None =>
      match fst (createZipFromFiles zipAddRejects zipEncode validFiles w) with
      | Returned zipData =>
          fst (handle request w)
          = Returned (createZipResponse zipData (generateETag zipData) name)
          /\ advancesTo (map url validFiles)
               (if storeFails w then cacheStore w
                else <[cacheRequestUrl key
                       := storedResponse zipData (generateETag zipData) (now w)]>
                       (cacheStore w))
               w w'
      | Threw e =>
          fst (handle request w) = Returned (internalServerError e)
          /\ advances (map url validFiles) w w'
      end
  end.
Proof.
  intros Hval key name w'.
  destruct (validatedFiles_some _ _ Hval) as (entries & name' & -> & Hne & Hv & Hname).
  subst w' name. rewrite Hname. unfold handle, fetch. cbn [method].
  change ("POST" =? "OPTIONS")%string with false.
  change ("POST" =? "POST")%string with true. cbv beta iota.
  destruct (handlePostRequest_run "POST" entries name' validFiles w Hne Hv)
    as (es & Hquiet & Hrun).
  unfold tryCatch. fold handlePost. rewrite Hrun. fold key.
  pose proof (advances_quiet es w Hquiet) as Hes.
  destruct (lookupResult key w) as [c|].
  - split; [reflexivity|exact Hes].
  - assert (Hsame : fst (createZipFromFiles zipAddRejects zipEncode validFiles (emitAll es w))
                    = fst (createZipFromFiles zipAddRejects zipEncode validFiles w)).
    { apply createZipFromFiles_result; [reflexivity|].
      apply fetchCount_emitAll. exact Hquiet. }
    pose proof (createZipFromFiles_advances zipAddRejects zipEncode validFiles
                  (emitAll es w)) as Hadv.
    rewrite <- Hsame.
    destruct (createZipFromFiles zipAddRejects zipEncode validFiles (emitAll es w))
      as [[zipData|err] w2]; cbn [fst snd] in *.
    + split; [reflexivity|].
      destruct (cacheZip_run key zipData (generateETag zipData) w2)
        as (es2 & Hq2 & Hzip).
      rewrite Hzip. cbn [snd].
      pose proof (advances_trans _ _ _ _ _ Hes Hadv) as H02. simpl in H02.
      destruct H02 as (Ho & Hf & Hn & Hs & es3 & Ht & Hu).
      assert (Hfails : storeFails w2 = storeFails w).
      { unfold storeFails. rewrite Hf. reflexivity. }
      rewrite Hfails, Hs, Hn.
      repeat split; try assumption.
      exists (es3 ++ es2). split.
      * simpl. rewrite Ht, app_assoc. reflexivity.
      * rewrite fetchedUrls_app, Hu, (fetchedUrls_quiet es2 Hq2), app_nil_r.
        reflexivity.
    + split; [unfold_async; reflexivity|].
      unfold_async. cbn [snd].
      rewrite <- (app_nil_r (map url validFiles)).
      eapply advances_trans; [|apply advances_emit_quiet; reflexivity].
      exact (advances_trans _ _ _ _ _ Hes Hadv).
Qed.

End HandlerRuns.

(* ===================================================================== *)
(** ** The form of keys and ETags                                       *)
(* ===================================================================== *)

Lemma digest_length msg : List.length (Sha256.digest msg) = 32%nat.
Proof.
  unfold Sha256.digest.
  generalize (fold_left Sha256.compress
                (Sha256.chunks 16
                   (List.length (Sha256.pad (map zOfByte msg)))
                   (Sha256.wordsOf (Sha256.pad (map zOfByte msg))))
                Sha256.initial).
  intros h. reflexivity.
Qed.

Lemma hexByte_spec b :
  String.length (hexByte b) = 2%nat /\ allLowerHex (hexByte b) = true.
Proof. destruct b; split; reflexivity. Qed.

Lemma allLowerHex_append a b :
  allLowerHex a = true -> allLowerHex b = true -> allLowerHex (a +:+ b) = true.
Proof.
  induction a as [|c a IH]; intros Ha Hb; [exact Hb|].
  rewrite append_cons. simpl in *. apply andb_prop in Ha as [Hc Ha].
  rewrite Hc. simpl. auto.
Qed.

Lemma hexOfBytes_spec bs :
  String.length (hexOfBytes bs) = (2 * List.length bs)%nat
  /\ allLowerHex (hexOfBytes bs) = true.
Proof.
  unfold hexOfBytes. induction bs as [|b bs [IHl IHh]]; [split; reflexivity|].
  cbn [map]. rewrite join_tail.
  destruct (hexByte_spec b) as [Hl Hh].
  destruct bs as [|b' bs].
  - cbn [map]. rewrite append_length, Hl. split; [reflexivity|].
    apply allLowerHex_append; [exact Hh|reflexivity].
  - cbn [map] in *. rewrite append_empty, append_length, Hl, IHl.
    split; [simpl; lia|]. apply allLowerHex_append; assumption.
Qed.

Lemma take_spec s : forall n,
  (n <= String.length s)%nat ->
  String.length (JsString.take n s) = n
  /\ (allLowerHex s = true -> allLowerHex (JsString.take n s) = true).
Proof.
  induction s as [|c s IH]; intros [|n] Hn; simpl in *; try (split; auto; lia).
  destruct (IH n ltac:(lia)) as [Hl Hh]. split; [lia|].
  intros H. apply andb_prop in H as [Hc Hs]. rewrite Hc. simpl. auto.
Qed.

Lemma generateETag_spec data :
  String.length (generateETag data) = 16%nat
  /\ allLowerHex (generateETag data) = true.
Proof.
  unfold generateETag.
  destruct (hexOfBytes_spec (Sha256.digest data)) as [Hl Hh].
  rewrite digest_length in Hl.
  destruct (take_spec (hexOfBytes (Sha256.digest data)) 16) as [Htl Hth];
    [rewrite Hl; simpl; lia|].
  auto.
Qed.

Lemma generateETag_truthy data : JsString.truthy (generateETag data) = true.
Proof.
  destruct (generateETag_spec data) as [Hl _].
  destruct (generateETag data); [discriminate|reflexivity].
Qed.

(** The cache key is 64 characters and the ETag 16, all of them digits or
    letters from a to f, whatever is hashed; the ETag is the start of the
    hexadecimal SHA-256 of the data. *)
Theorem cache_key_and_etag_are_fixed_length_hex :
  (forall urls,
     String.length (generateCacheKey urls) = 64%nat
     /\ allLowerHex (generateCacheKey urls) = true)
  /\ (forall data,
        String.length (generateETag data) = 16%nat
        /\ allLowerHex (generateETag data) = true
        /\ JsString.startsWith (hexOfBytes (Sha256.digest data)) (generateETag data)
           = true).
Proof.
  split.
  - intros urls. unfold generateCacheKey.
    destruct (hexOfBytes_spec (Sha256.digest (textEncode (JsString.join "|" urls))))
      as [Hl Hh].
    rewrite digest_length in Hl. auto.
  - intros data. destruct (generateETag_spec data) as [Hl Hh].
    repeat split; try assumption.
    unfold generateETag. generalize (hexOfBytes (Sha256.digest data)). clear.
    intros s. generalize 16%nat. induction s as [|c s IH]; intros [|n];
      simpl; try reflexivity.
    rewrite Ascii.eqb_refl. simpl. apply IH.
Qed.

(* ===================================================================== *)
(** ** The cache: store, then look up                                   *)
(* ===================================================================== *)



Lemma orElse_some_empty s : orElse (Some s) "" = s.
Proof. destruct s; reflexivity. Qed.

Lemma cachedOf_storedResponse data etag timestamp :
  0 <= timestamp ->
  cachedOf (storedResponse data etag timestamp) = mkCached data etag (Some timestamp).
Proof.
  intros Ht. unfold cachedOf, storedResponse, newResponse.
  cbn [body headers bodyArrayBuffer].
  change (headersGet "etag" _) with (Some etag).
  change (headersGet "x-timestamp" _) with (Some (JsString.ofNumber timestamp)).
  rewrite orElse_some_empty. unfold orElse at 1.
  rewrite ofNumber_truthy, parseInt_ofNumber by exact Ht. reflexivity.
Qed.



(* ===================================================================== *)
(** ** What is fetched, stored and served                               *)
(* ===================================================================== *)

Lemma validated_urls_allowed urlProtocol request validFiles :
  validatedFiles urlProtocol request = Some validFiles ->
  Forall (fun u => isAllowedSource u = true) (map url validFiles).
Proof.
  intros Hval.
  destruct (validatedFiles_some _ _ _ Hval) as (entries & name & _ & _ & Hv & _).
  apply validateLoop_inr in Hv as (pushed & -> & Hall). simpl. clear Hval.
  induction Hall as [|file v fs vs Hf _ IH]; [constructor|].
  simpl. constructor; [|exact IH].
  apply validateFile_inr in Hf as (u & n & _ & _ & _ & _ & Ha & ->). exact Ha.
Qed.

Lemma advancesTo_fetched urls store w w' :
  advancesTo urls store w w' ->
  fetchedUrls (trace w') = fetchedUrls (trace w) ++ urls.
Proof.
  intros (_ & _ & _ & _ & es & Ht & Hu). rewrite Ht, fetchedUrls_app, Hu.
  reflexivity.
Qed.

Lemma lookupResult_advancesTo urls w w' cacheKey :
  advancesTo urls (cacheStore w) w w' ->
  lookupResult cacheKey w' = lookupResult cacheKey w.
Proof.
  intros (_ & Hf & _ & Hs & _). unfold lookupResult, lookupFails.
  rewrite Hf, Hs. reflexivity.
Qed.

Lemma createZipResponse_etag data etag name :
  headersGet "ETag" (headers (createZipResponse data etag name)) = Some etag
  /\ body (createZipResponse data etag name) = BodyData data
  /\ status (createZipResponse data etag name) = 200.
Proof. repeat split. Qed.

Section Served.

Variable localeCompare : string -> string -> Z.
Variable urlProtocol : string -> option string.
Variable zipAddRejects : list DownloadedFile -> DownloadedFile -> option string.
Variable zipEncode : list DownloadedFile -> bytes.

Let handle := fetch localeCompare urlProtocol zipAddRejects zipEncode.

(** Whatever the request, the handler fetches nothing but urls that start
    with an allowed prefix: none at all, or, for a request that passes
    validation and misses the cache, the url of each file, once, in the
    order of the request. *)
Theorem only_allowed_urls_are_fetched request w :
  exists urls,
    fetchedUrls (trace (snd (handle request w))) = fetchedUrls (trace w) ++ urls
    /\ Forall (fun u => isAllowedSource u = true) urls
    /\ (urls = []
        \/ exists validFiles,
             validatedFiles urlProtocol request = Some validFiles
             /\ lookupResult (requestCacheKey localeCompare validFiles) w = None
             /\ urls = map url validFiles).
Proof.
  destruct (validatedFiles urlProtocol request) as [validFiles|] eqn:Hval.
  - pose proof (fetch_validated localeCompare urlProtocol zipAddRejects zipEncode
                  request validFiles w Hval) as Hrun.
    cbv zeta in Hrun. fold handle in Hrun.
    destruct (lookupResult (requestCacheKey localeCompare validFiles) w) as [c|] eqn:Hl.
    + destruct Hrun as [_ Hadv]. exists []. split; [|split; [constructor|auto]].
      eapply advancesTo_fetched; exact Hadv.
    + exists (map url validFiles).
      split; [|split; [eapply validated_urls_allowed; eauto|right; eauto]].
      destruct (fst (createZipFromFiles _ _ validFiles w));
        destruct Hrun as [_ Hadv]; eapply advancesTo_fetched; exact Hadv.
  - destruct (fetch_unvalidated localeCompare urlProtocol zipAddRejects zipEncode
                request w Hval) as (r & _ & Hadv & _).
    exists []. split; [|split; [constructor|auto]].
    eapply advancesTo_fetched; exact Hadv.
Qed.



(** A request whose archive was served once is served the same response
    again from the world it left, without a fetch, when the cache works. *)
Theorem repeated_request_is_served_from_cache request validFiles response w :
  validatedFiles urlProtocol request = Some validFiles ->
  storeFails w = false ->
  lookupFails w = false ->
  0 <= now w ->
  fst (handle request w) = Returned response ->
  status response = 200 ->
  fst (handle request (snd (handle request w))) = Returned response
  /\ fetchedUrls (trace (snd (handle request (snd (handle request w)))))
     = fetchedUrls (trace (snd (handle request w)))
  /\ cacheStore (snd (handle request (snd (handle request w))))
     = cacheStore (snd (handle request w)).
Proof.
  intros Hval Hstore Hlookup Hnow Hresp Hstatus.
  pose proof (fetch_validated localeCompare urlProtocol zipAddRejects zipEncode
                request validFiles w Hval) as Hrun.
  cbv zeta in Hrun. fold handle in Hrun.
  set (w1 := snd (handle request w)) in *.
  set (key := requestCacheKey localeCompare validFiles) in *.
  assert (Hhit : exists c,
             lookupResult key w1 = Some c
             /\ response = createZipResponse (cached_data c) (cached_etag c)
                             (requestedZipName request)).
  { destruct (lookupResult key w) as [c|] eqn:Hl.
    - destruct Hrun as [Hr Hadv]. exists c. split.
      + rewrite (lookupResult_advancesTo _ _ _ _ Hadv). exact Hl.
      + rewrite Hr in Hresp. injection Hresp as <-. reflexivity.
    - destruct (fst (createZipFromFiles _ _ validFiles w)) as [zipData|e].
      + destruct Hrun as [Hr (_ & Hf & _ & Hs & _)]. rewrite Hstore in Hs.
        exists (mkCached zipData (generateETag zipData) (Some (now w))). split.
        * unfold lookupResult, lookupFails. rewrite Hf.
          unfold lookupFails in Hlookup. rewrite Hlookup, Hs, lookup_insert_eq.
          cbn [option_map]. rewrite cachedOf_storedResponse by exact Hnow.
          reflexivity.
        * rewrite Hr in Hresp. injection Hresp as <-. reflexivity.
      + destruct Hrun as [Hr _]. rewrite Hr in Hresp. injection Hresp as <-.
        discriminate Hstatus. }
  destruct Hhit as (c & Hl1 & ->).
  pose proof (fetch_validated localeCompare urlProtocol zipAddRejects zipEncode
                request validFiles w1 Hval) as Hrun1.
  cbv zeta in Hrun1. fold handle in Hrun1. fold key in Hrun1.
  rewrite Hl1 in Hrun1. destruct Hrun1 as [Hr1 Hadv1].
  split; [exact Hr1|]. split.
  - rewrite (advancesTo_fetched _ _ _ _ Hadv1). apply app_nil_r.
  - destruct Hadv1 as (_ & _ & _ & Hs & _). exact Hs.
Qed.

(** When every stored ETag is the ETag of the stored body, it stays so
    after any request, and every archive served carries, as its ETag, the
    first 16 hexadecimal digits of the SHA-256 of the bytes served. *)
Theorem etag_matches_the_body_served request w :
  cacheCoherent w ->
  cacheCoherent (snd (handle request w))
  /\ forall response data,
       fst (handle request w) = Returned response ->
       body response = BodyData data ->
       headersGet "ETag" (headers response) = Some (generateETag data).
Proof.
  intros Hco.
  destruct (validatedFiles urlProtocol request) as [validFiles|] eqn:Hval.
  - pose proof (fetch_validated localeCompare urlProtocol zipAddRejects zipEncode
                  request validFiles w Hval) as Hrun.
    cbv zeta in Hrun. fold handle in Hrun.
    destruct (lookupResult (requestCacheKey localeCompare validFiles) w) as [c|] eqn:Hl.
    + destruct Hrun as [Hr (_ & _ & _ & Hs & _)]. split.
      * unfold cacheCoherent. rewrite Hs. exact Hco.
      * intros response data Hresp Hbody. rewrite Hr in Hresp.
        injection Hresp as <-. cbn in Hbody. injection Hbody as <-.
        unfold lookupResult in Hl. destruct (lookupFails w); [discriminate|].
        destruct (cacheStore w !! _) as [r|] eqn:Hr0; [|discriminate].
        injection Hl as <-. unfold cachedOf. cbn [cached_data cached_etag].
        rewrite (Hco _ _ Hr0). unfold orElse. rewrite generateETag_truthy.
        reflexivity.
    + destruct (fst (createZipFromFiles _ _ validFiles w)) as [zipData|e].
      * destruct Hrun as [Hr (_ & _ & _ & Hs & _)]. split.
        -- unfold cacheCoherent. rewrite Hs. destruct (storeFails w); [exact Hco|].
           intros requestUrl r Hin.
           apply lookup_insert_Some in Hin as [[_ <-]|[_ Hin]];
             [reflexivity|eauto].
        -- intros response data Hresp Hbody. rewrite Hr in Hresp.
           injection Hresp as <-. cbn in Hbody. injection Hbody as <-. reflexivity.
      * destruct Hrun as [Hr (_ & _ & _ & Hs & _)]. split.
        -- unfold cacheCoherent. rewrite Hs. exact Hco.
        -- intros response data Hresp Hbody. rewrite Hr in Hresp.
           injection Hresp as <-. discriminate Hbody.
  - destruct (fetch_unvalidated localeCompare urlProtocol zipAddRejects zipEncode
                request w Hval) as (r & Hr & (_ & _ & _ & Hs & _) & Hbody & _).
    fold handle in Hr, Hs. split.
    + unfold cacheCoherent. rewrite Hs. exact Hco.
    + intros response data Hresp Hb. rewrite Hr in Hresp. injection Hresp as <-.
      exfalso. exact (Hbody _ Hb).
Qed.

(** A miss with a download that fails is answered with the 500 that
    carries the aggregate message; every file was fetched, and the cache
    is as it was. *)
Theorem failed_download_is_an_internal_error request validFiles w :
  validatedFiles urlProtocol request = Some validFiles ->
  lookupResult (requestCacheKey localeCompare validFiles) w = None ->
  List.filter isRejected (settledDownloads (origin w) (fetchCount w) validFiles)
  <> [] ->
  fst (handle request w)
  = Returned
      (internalServerError
         (mkError ("Failed to download some files: "
                   +:+ JsString.join ", "
                         (map reasonMessage
                            (List.filter isRejected
                               (settledDownloads (origin w) (fetchCount w)
                                  validFiles))))))
  /\ fetchedUrls (trace (snd (handle request w)))
     = fetchedUrls (trace w) ++ map url validFiles
  /\ cacheStore (snd (handle request w)) = cacheStore w.
Proof.
  intros Hval Hmiss Hfailed.
  pose proof (fetch_validated localeCompare urlProtocol zipAddRejects zipEncode
                request validFiles w Hval) as Hrun.
  cbv zeta in Hrun. fold handle in Hrun. rewrite Hmiss in Hrun.
  rewrite createZipFromFiles_unfold in Hrun.
  destruct (List.filter isRejected _) as [|r failed]; [congruence|].
  cbn [fst] in Hrun. destruct Hrun as [Hr Hadv].
  split; [exact Hr|]. split.
  - eapply advancesTo_fetched; exact Hadv.
  - destruct Hadv as (_ & _ & _ & Hs & _). exact Hs.
Qed.

End Served.

(* ===================================================================== *)
(** ** The entries that pass validation                                 *)
(* ===================================================================== *)

(** The loop accepts a list exactly when it accepts every entry, and then
    its result holds one entry per entry of the request, in order: the url
    as given and the filename normalised. *)
Theorem validation_accepts_exactly urlProtocol entries validFiles :
  validateLoop urlProtocol entries [] = inr validFiles
  <-> Forall2 (acceptedAs urlProtocol) entries validFiles.
Proof.
  split.
  - intros H. apply validateLoop_inr in H as (pushed & -> & Hall). simpl.
    eapply Forall2_impl; [exact Hall|].
    intros file v Hf. apply validateFile_acceptedAs. exact Hf.
  - intros H. rewrite <- (app_nil_l validFiles).
    apply validateLoop_accepted. exact H.
Qed.

Lemma jarFilename_ends name : endsWithJarAnyCase (jarFilename name).
Proof.
  unfold jarFilename.
  destruct (JsString.endsWith (JsString.toLowerCase name) ".jar") eqn:E.
  - apply endsWith_jar_iff. exact E.
  - exists name, "."%char, "j"%char, "a"%char, "r"%char. auto 10.
Qed.

(** Normalising a filename twice is normalising it once, the result ends
    with the suffix in some case, and so does the filename of every entry
    that the loop lets through. *)
Theorem jar_filename_is_idempotent :
  (forall name,
     endsWithJarAnyCase (jarFilename name)
     /\ jarFilename (jarFilename name) = jarFilename name)
  /\ (forall urlProtocol entries validFiles,
        validateLoop urlProtocol entries [] = inr validFiles ->
        Forall (fun f => endsWithJarAnyCase (filename f)
                         /\ jarFilename (filename f) = filename f) validFiles).
Proof.
  assert (Hname : forall name,
             endsWithJarAnyCase (jarFilename name)
             /\ jarFilename (jarFilename name) = jarFilename name).
  { intros name. split; [apply jarFilename_ends|].
    pose proof (jarFilename_ends name) as H. apply endsWith_jar_iff in H.
    unfold jarFilename at 1. rewrite H. reflexivity. }
  split; [exact Hname|].
  intros urlProtocol entries validFiles Hv.
  apply validateLoop_inr in Hv as (pushed & -> & Hall). simpl.
  induction Hall as [|file v fs vs Hf _ IH]; constructor; [|exact IH].
  apply validateFile_inr in Hf as (u & name & _ & _ & _ & _ & _ & ->).
  apply Hname.
Qed.

(* ===================================================================== *)
(** ** The archive, when the writer refuses an entry                    *)
(* ===================================================================== *)

Section Refusal.

Variable zipAddRejects : list DownloadedFile -> DownloadedFile -> option string.
Variable zipEncode : list DownloadedFile -> bytes.




End Refusal.

Section RefusedRequest.

Variable localeCompare : string -> string -> Z.
Variable urlProtocol : string -> option string.
Variable zipAddRejects : list DownloadedFile -> DownloadedFile -> option string.
Variable zipEncode : list DownloadedFile -> bytes.

Let handle := fetch localeCompare urlProtocol zipAddRejects zipEncode.


End RefusedRequest.

(* ===================================================================== *)
(** ** Runs of the handler                                              *)
(* ===================================================================== *)



(** The request for one file, twice: the second run fetches nothing. *)
Lemma repeated_request_is_served_from_cache_witness :
  fst (Sample.worker Runs.oneFile (snd (Sample.worker Runs.oneFile Runs.fine)))
  = Returned
      (createZipResponse
         (Sample.storeEntries [mkDownloaded "a.jar" [x50; x4b; x03]])
         (generateETag (Sample.storeEntries [mkDownloaded "a.jar" [x50; x4b; x03]]))
         None)
  /\ fetchedUrls (trace (snd (Sample.worker Runs.oneFile
                                (snd (Sample.worker Runs.oneFile Runs.fine)))))
     = fetchedUrls (trace (snd (Sample.worker Runs.oneFile Runs.fine))).
Proof.
  destruct (repeated_request_is_served_from_cache
              Sample.codeUnitCompare Sample.schemeProtocol
              Sample.rejectDuplicate Sample.storeEntries
              Runs.oneFile [mkValidFile Sample.essentials "a.jar"]
              (createZipResponse
                 (Sample.storeEntries [mkDownloaded "a.jar" [x50; x4b; x03]])
                 (generateETag
                    (Sample.storeEntries [mkDownloaded "a.jar" [x50; x4b; x03]]))
                 None)
              Runs.fine)
    as (Hr & Hf & _);
    [vm_compute; first [reflexivity | discriminate]..|].
  split; [exact Hr|exact Hf].
Defined.

(** The request for one file, from an empty cache, which is coherent. *)
Lemma etag_matches_the_body_served_witness :
  cacheCoherent (snd (Sample.worker Runs.oneFile Runs.fine))
  /\ forall response data,
       fst (Sample.worker Runs.oneFile Runs.fine) = Returned response ->
       body response = BodyData data ->
       headersGet "ETag" (headers response) = Some (generateETag data).
Proof.
  apply (etag_matches_the_body_served
           Sample.codeUnitCompare Sample.schemeProtocol
           Sample.rejectDuplicate Sample.storeEntries
           Runs.oneFile Runs.fine).
  intros requestUrl r Hin. discriminate Hin.
Defined.

(** The request for one file when no origin can be reached. *)
Lemma failed_download_is_an_internal_error_witness :
  fst (Sample.worker Runs.oneFile Runs.offline)
  = Returned
      (internalServerError
         (mkError "Failed to download some files: Network connection lost."))
  /\ cacheStore (snd (Sample.worker Runs.oneFile Runs.offline))
     = cacheStore Runs.offline.
Proof.
  destruct (failed_download_is_an_internal_error
              Sample.codeUnitCompare Sample.schemeProtocol
              Sample.rejectDuplicate Sample.storeEntries
              Runs.oneFile [mkValidFile Sample.essentials "a.jar"] Runs.offline)
    as (Hr & _ & Hs);
    [vm_compute; first [reflexivity | discriminate]..|].
  split; [exact Hr|exact Hs].
Defined.

